(** * Meeting Recap Assistant: the recap route and the page's client logic

    A shallow embedding of [src/app/api/recap/route.ts] (the [POST] handler
    and the loading of its module) and of the page component (its [handleGenerate], [persistHistory],
    [handleDownloadZip] and [restoreFromHistory] functions), with the
    properties of the recap pipeline, the bundler and the local history
    proved over it.

    The handler is an effectful function: it reads the process
    environment and the request, calls the remote service and may throw.
    It is modelled in a small monad of computations that log their effects
    and may throw; what the environment, the remote service, the speech
    service and [JSON.parse] answer is a parameter, the [World].  The
    request body is whatever JSON value [request.json()] yields, not only
    the values of the [RecapRequest] interface.  On the page, values have
    the types that its interfaces declare. *)

From Stdlib Require Import QArith DecimalString.
From stdpp Require Import base option list gmap strings.

Local Open Scope N_scope.
Local Open Scope list_scope.

(** ** JavaScript strings

    A JavaScript string is a sequence of UTF-16 code units; [length],
    [slice] and [trim] all work on code units. *)

Definition jsstring : Type := list N.

(** An ASCII literal of the source as a JavaScript string. *)
Definition lit (s : string) : jsstring :=
  map Ascii.N_of_ascii (String.list_ascii_of_string s).

(** The line feed of the template literals. *)
Definition LF : jsstring := [10].

(** ECMAScript's WhiteSpace and LineTerminator code points, which are the
    ones [String.prototype.trim] strips; all of them are single code
    units. *)
Definition is_whitespace (c : N) : bool :=
  (c =? 9) || (c =? 10) || (c =? 11) || (c =? 12) || (c =? 13) || (c =? 32)
  || (c =? 160) || (c =? 5760) || ((8192 <=? c) && (c <=? 8202))
  || (c =? 8232) || (c =? 8233) || (c =? 8239) || (c =? 8287)
  || (c =? 12288) || (c =? 65279).

Fixpoint trimStart (s : jsstring) : jsstring :=
  match s with
  | c :: s' => if is_whitespace c then trimStart s' else s
  | [] => []
  end.

Definition trimEnd (s : jsstring) : jsstring := rev (trimStart (rev s)).

Definition trim (s : jsstring) : jsstring := trimEnd (trimStart s).

(** [s.slice(0, n)] for a non-negative [n]. *)
Definition slice0 (n : nat) (s : jsstring) : jsstring := take n s.

(** Truthiness of a string: only the empty string is falsy. *)
Definition nonempty (s : jsstring) : bool :=
  match s with [] => false | _ :: _ => true end.

(** ** JSON values

    What [JSON.parse] and [request.json()] produce, and what
    [NextResponse.json] sends.  A JSON number is a finite double, hence a
    rational; only its being zero or not is ever looked at. *)

Local Unset Elimination Schemes.
Inductive json : Type :=
  | JNull
  | JBool (b : bool)
  | JNum (q : Q)
  | JStr (s : jsstring)
  | JArr (l : list json)
  | JObj (o : gmap jsstring json).
Local Set Elimination Schemes.

(** An object literal [{ k1: v1, ..., kn: vn }] with distinct keys. *)
Definition obj (fields : list (string * json)) : json :=
  JObj (list_to_map (map (λ kv, (lit kv.1, kv.2)) fields)).

Arguments lit : simpl never.
Arguments obj : simpl never.

(** JavaScript's ToBoolean on a JSON value. *)
Definition truthy (v : json) : bool :=
  match v with
  | JNull => false
  | JBool b => b
  | JNum q => negb (Qnum q =? 0)%Z
  | JStr s => nonempty s
  | JArr _ | JObj _ => true
  end.

(** [x || d], where [None] stands for [undefined]. *)
Definition or_else (x : option json) (d : json) : json :=
  match x with
  | Some v => if truthy v then v else d
  | None => d
  end.

(** [x ?? d]: only [undefined] and [null] give way to [d]. *)
Definition nullish (x : option json) (d : json) : json :=
  match x with
  | Some JNull | None => d
  | Some v => v
  end.

(** [v === "s"] against a string literal. *)
Definition strict_eq_str (v : json) (s : jsstring) : bool :=
  match v with
  | JStr s' => bool_decide (s' = s)
  | _ => false
  end.

(** ** Thrown values

    Everything thrown here is an [Error] object: the engine's [TypeError]s
    and the errors of the remote client. *)

Record JsError : Type := { err_name : jsstring; err_message : jsstring }.

(** [Error.prototype.toString], which is what [String(err)] calls. *)
Definition String_of_error (e : JsError) : jsstring :=
  match err_name e, err_message e with
  | [], msg => msg
  | name, [] => name
  | name, msg => name ++ lit ": " ++ msg
  end.

(** [err?.message || String(err)] and [err.message || String(err)]. *)
Definition error_text (e : JsError) : jsstring :=
  if nonempty (err_message e) then err_message e else String_of_error e.

Definition TypeError (msg : jsstring) : JsError :=
  {| err_name := lit "TypeError"; err_message := msg |}.

(** The messages of V8, the engine of the [nodejs] runtime the route
    declares. *)
Definition null_property_message (prop : string) : jsstring :=
  lit "Cannot read properties of null (reading '" ++ lit prop ++ lit "')".

Definition trim_not_a_function_message : jsstring :=
  lit "(body.transcript || " ++ [34; 34] ++ lit ").trim is not a function".

(** ** Computations that throw

    A computation threads a state of type [S] and either yields a value or
    throws; what it did to the state before throwing stays done. *)

Definition Eff (S A : Type) : Type := S → (JsError + A) * S.

#[global] Instance Eff_ret {S} : MRet (Eff S) := λ A a st, (inr a, st).

#[global] Instance Eff_bind {S} : MBind (Eff S) := λ A B f m st,
  match m st with
  | (inr a, st') => f a st'
  | (inl e, st') => (inl e, st')
  end.

Definition throw {S A} (e : JsError) : Eff S A := λ st, (inl e, st).

(** [m] run inside a [try]: what it threw or what it yielded. *)
Definition attempt {S A} (m : Eff S A) : Eff S (JsError + A) := λ st,
  (inr (m st).1, (m st).2).

(** [try { m } catch (err) { h err }]. *)
Definition try_catch {S A} (m : Eff S A) (h : JsError → Eff S A) : Eff S A :=
  r ← attempt m;
  match r with
  | inl err => h err
  | inr a => mret a
  end.

(** The answer [r] of an awaited call: a rejection is thrown. *)
Definition settle {S A} (r : JsError + A) : Eff S A :=
  match r with
  | inl e => throw e
  | inr a => mret a
  end.

(** * The route: [src/app/api/recap/route.ts] *)

Module Route.

(** ** The handler's effects

    The handler runs in a monad that threads the list of the effects
    performed so far, oldest first, and either yields a value or throws. *)

Inductive Role : Type := user | assistant.

#[global] Instance Role_eq_dec : EqDecision Role.
Proof. solve_decision. Defined.

Record MessageParam : Type := { role : Role; content : jsstring }.

Inductive ContentPart : Type :=
  | TextPart (value : jsstring)
  | ImageFilePart
  | ImageUrlPart
  | RefusalPart.

Record Message : Type := { msg_role : Role; msg_content : list ContentPart }.

Inductive RunStatus : Type :=
  | queued | in_progress | requires_action | cancelling | cancelled
  | failed | completed | incomplete | expired.

#[global] Instance RunStatus_eq_dec : EqDecision RunStatus.
Proof. solve_decision. Defined.

(** The status as the string the client library reports. *)
Definition status_text (s : RunStatus) : jsstring :=
  match s with
  | queued => lit "queued"
  | in_progress => lit "in_progress"
  | requires_action => lit "requires_action"
  | cancelling => lit "cancelling"
  | cancelled => lit "cancelled"
  | failed => lit "failed"
  | completed => lit "completed"
  | incomplete => lit "incomplete"
  | expired => lit "expired"
  end.

Record Thread : Type := { thread_id : jsstring }.
Record Run : Type := { run_status : RunStatus }.

Inductive Event : Type :=
  | RequestJson
  | ThreadsCreate (messages : list MessageParam)
  | RunsCreateAndPoll (thread assistant_id response_format : jsstring)
  | MessagesList (thread : jsstring)
  | JsonParse (raw : jsstring)
  | SpeechCreate (model voice : jsstring) (input : json)
  | ConsoleError (e : JsError).

Definition M (A : Type) : Type := Eff (list Event) A.

Definition emit (ev : Event) : M unit := λ log, (inr (), log ++ [ev]).

(** [await] of a call that the outside world answers with [r]. *)
Definition await {A} (ev : Event) (r : JsError + A) : M A :=
  emit ev;; settle r.

(** [v.prop] for the property names read in this file, none of which a
    primitive or an array carries; reading a property of [null] throws. *)
Definition get (v : json) (prop : string) : M (option json) :=
  match v with
  | JNull => throw (TypeError (null_property_message prop))
  | JObj o => mret (o !! lit prop)
  | _ => mret None
  end.

(** [v.trim()]: only a string has the method. *)
Definition call_trim (v : json) : M jsstring :=
  match v with
  | JStr s => mret (trim s)
  | _ => throw (TypeError trim_not_a_function_message)
  end.

(** ** [Buffer.prototype.toString("base64")] *)

Definition base64_char (i : N) : N :=
  if i <? 26 then 65 + i
  else if i <? 52 then 97 + (i - 26)
  else if i <? 62 then 48 + (i - 52)
  else if i =? 62 then 43
  else 47.

Definition base64_pad : N := 61.

Fixpoint base64_of_N (bs : list N) : jsstring :=
  match bs with
  | a :: b :: c :: rest =>
      base64_char (N.shiftr a 2)
      :: base64_char (N.lor (N.shiftl (N.land a 3) 4) (N.shiftr b 4))
      :: base64_char (N.lor (N.shiftl (N.land b 15) 2) (N.shiftr c 6))
      :: base64_char (N.land c 63)
      :: base64_of_N rest
  | [a; b] =>
      [base64_char (N.shiftr a 2);
       base64_char (N.lor (N.shiftl (N.land a 3) 4) (N.shiftr b 4));
       base64_char (N.shiftl (N.land b 15) 2);
       base64_pad]
  | [a] =>
      [base64_char (N.shiftr a 2);
       base64_char (N.shiftl (N.land a 3) 4);
       base64_pad; base64_pad]
  | [] => []
  end.

Definition toString_base64 (buffer : list Byte.byte) : jsstring :=
  base64_of_N (map Byte.to_N buffer).

(** ** The outside world of one request

    The process environment, and how the remote service, the speech
    service and [JSON.parse] answer.  The calls of the client object are
    modelled by their answers; whether the module could build the client
    when it was loaded is [client_built], below. *)

Record World : Type := {
  OPENAI_API_KEY : option jsstring;
  OPENAI_ASSISTANT_ID : option jsstring;
  threads_create : list MessageParam → JsError + Thread;
  runs_createAndPoll : jsstring → jsstring → JsError + Run;
  messages_list : jsstring → JsError + list Message;
  JSON_parse : jsstring → option json;
  (* [speech.create] followed by [speech.arrayBuffer()] *)
  speech_create : json → JsError + list Byte.byte
}.

(** Truthiness of [process.env.X]: unset and empty are both falsy. *)
Definition is_set (x : option jsstring) : bool :=
  match x with
  | Some s => nonempty s
  | None => false
  end.

Record Request : Type := { request_json : JsError + json }.

Record Response : Type := { status : nat; body : json }.

(** [NextResponse.json(body)] and [NextResponse.json(body, { status })]. *)
Definition NextResponse_json (b : json) (st : option nat) : Response :=
  {| status := default 200%nat st; body := b |}.

Definition error_response (msg : jsstring) (st : nat) : Response :=
  NextResponse_json (obj [("error", JStr msg)]) (Some st).

Definition English_instruction : jsstring :=
  lit "Please write the notes and voiceover script in English.".

Definition Swedish_instruction : jsstring :=
  lit "Please write the notes and voiceover script in Swedish.".

Definition languageInstruction (language : json) : jsstring :=
  if strict_eq_str language (lit "sv")
  then Swedish_instruction
  else English_instruction.

(** The template literal of the user message. *)
Definition user_content (instruction transcript : jsstring) : jsstring :=
  instruction ++ LF ++ LF ++ lit "Transcript:" ++ LF ++ LF ++ transcript.

(** Lines 77 to 108 of the route: the assistant's answer as the pair of
    [notes_markdown] and [voiceover_script], or the response that ends the
    request there. *)
Definition read_assistant (w : World) (thread : jsstring)
  : M (Response + json * json) :=
  messages ← await (MessagesList thread) (messages_list w thread);
  match find (λ m, bool_decide (msg_role m = assistant)) messages with
  | None => mret (inl (error_response (lit "No assistant response found") 500))
  | Some assistantMsg =>
      match msg_content assistantMsg with
      | [] =>
          mret (inl (error_response (lit "No assistant response found") 500))
      | TextPart raw :: _ =>
          emit (JsonParse raw);;
          match JSON_parse w raw with
          | None =>
              mret (inl (NextResponse_json
                           (obj [("error",
                                  JStr (lit "Failed to parse JSON from assistant"));
                                 ("raw", JStr raw)])
                           (Some 500%nat)))
          | Some parsed =>
              nm ← get parsed "notes_markdown";
              vs ← get parsed "voiceover_script";
              mret (inr (nullish nm (JStr []), nullish vs (JStr [])))
          end
      | _ :: _ =>
          mret (inl (error_response
                       (lit "Unexpected assistant content type") 500))
      end
  end.

(** The [messages] of [threads.create]: the one user message that seeds
    the thread. *)
Definition seed (language : json) (transcript : jsstring)
  : list MessageParam :=
  [{| role := user;
      content := user_content (languageInstruction language) transcript |}].

(** Lines 55 to 131 of the route: the body of its [try]. *)
Definition pipeline (w : World) (ASSISTANT_ID transcript : jsstring)
    (mode language : json) : M Response :=
  let messages := seed language transcript in
  thread ← await (ThreadsCreate messages) (threads_create w messages);
  run ← await
    (RunsCreateAndPoll (thread_id thread) ASSISTANT_ID (lit "json_object"))
    (runs_createAndPoll w (thread_id thread) ASSISTANT_ID);
  if negb (bool_decide (run_status run = completed)) then
    mret (error_response
            (lit "Run did not complete: " ++ status_text (run_status run)) 500)
  else
    answer ← read_assistant w (thread_id thread);
    match answer with
    | inl early => mret early
    | inr (notes_markdown, voiceover_script) =>
        if strict_eq_str mode (lit "notes") then
          mret (NextResponse_json
                  (obj [("notes_markdown", notes_markdown);
                        ("audioBase64", JNull);
                        ("mimeType", JNull)])
                  None)
        else
          buffer ← await
            (SpeechCreate (lit "gpt-4o-mini-tts") (lit "alloy")
                          voiceover_script)
            (speech_create w voiceover_script);
          mret (NextResponse_json
                  (obj [("notes_markdown", notes_markdown);
                        ("audioBase64", JStr (toString_base64 buffer));
                        ("mimeType", JStr (lit "audio/mpeg"))])
                  None)
    end.

(** Lines 32 to 48 of the route: the trimmed transcript, the mode and the
    language of the request, or the response that ends the request there. *)
Definition read_request (request : Request)
  : M (Response + jsstring * json * json) :=
  r ← attempt (await RequestJson (request_json request));
  match r with
  | inl _ => mret (inl (error_response (lit "Invalid JSON") 400))
  | inr body =>
      t ← get body "transcript";
      transcript ← call_trim (or_else t (JStr []));
      m ← get body "mode";
      l ← get body "language";
      let mode := or_else m (JStr (lit "notes")) in
      let language := or_else l (JStr (lit "en")) in
      if negb (nonempty transcript) then
        mret (inl (error_response (lit "Transcript is empty") 400))
      else mret (inr (transcript, mode, language))
  end.

Definition POST (w : World) (request : Request) : M Response :=
  if negb (is_set (OPENAI_API_KEY w)) then
    mret (error_response (lit "OPENAI_API_KEY is not set") 500)
  else if negb (is_set (OPENAI_ASSISTANT_ID w)) then
    mret (error_response (lit "OPENAI_ASSISTANT_ID is not set") 500)
  else
    let ASSISTANT_ID := default [] (OPENAI_ASSISTANT_ID w) in
    validated ← read_request request;
    match validated with
    | inl early => mret early
    | inr (transcript, mode, language) =>
        try_catch
          (pipeline w ASSISTANT_ID transcript mode language)
          (λ err,
             emit (ConsoleError err);;
             mret (error_response (error_text err) 500))
    end.

(** The properties of a JSON value that the handler reads. *)
Definition field (v : json) (k : string) : option json :=
  match v with JObj o => o !! lit k | _ => None end.

(** The mode that the handler works with: [body.mode || notes]. *)
Definition mode_of (bd : json) : json :=
  or_else (field bd "mode") (JStr (lit "notes")).

(** The number of threads that a run of the handler created. *)
Definition is_ThreadsCreate (ev : Event) : bool :=
  match ev with ThreadsCreate _ => true | _ => false end.

Definition sessions_created (log : list Event) : nat :=
  length (List.filter is_ThreadsCreate log).

(** The answers that [read_assistant] accepts: the first message of the
    assistant starts with a text part that [JSON.parse] decodes to a value
    other than [null]. *)
Definition answer_accepted (w : World) (messages : list Message) : Prop :=
  ∃ m raw parts parsed,
    find (λ m, bool_decide (msg_role m = assistant)) messages = Some m ∧
    msg_content m = TextPart raw :: parts ∧
    JSON_parse w raw = Some parsed ∧ parsed ≠ JNull.

(** Running the handler on a fresh request. *)
Definition handle (w : World) (request : Request)
  : (JsError + Response) * list Event := POST w request [].

(** ** Loading the module

    Lines 6 to 10 of the route run once, when the module is loaded and
    before [POST] can be called: [new OpenAI({ apiKey })] is handed the
    credential of the environment.  The constructor of the openai package
    throws when it is handed no key ([undefined], the variable unset) and
    takes every string, the empty one too.  When it throws, the module
    fails to load and no request reaches [POST]. *)
Definition client_built (w : World) : bool :=
  match OPENAI_API_KEY w with
  | Some _ => true
  | None => false
  end.

(** What becomes of a request to the route: the module did not load, or
    the handler ran, with its outcome and its log. *)
Inductive Served : Type :=
  | LoadFailed
  | Handled (out : JsError + Response) (log : list Event).

Definition serve (w : World) (request : Request) : Served :=
  if client_built w then
    Handled (handle w request).1 (handle w request).2
  else LoadFailed.

(** The bodies on which reading the request throws: [null], of which no
    property can be read, and those whose transcript is no string and is
    not falsy either, which have no [trim]. *)
Definition unreadable (bd : json) : Prop :=
  bd = JNull ∨
  ∃ v, field bd "transcript" = Some v ∧ truthy v = true ∧ ∀ s, v ≠ JStr s.

(** The error, if any, with which the world answers a remote call. *)
Definition failure (w : World) (ev : Event) : option JsError :=
  match ev with
  | ThreadsCreate messages =>
      match threads_create w messages with inl e => Some e | inr _ => None end
  | RunsCreateAndPoll thread assistant_id _ =>
      match runs_createAndPoll w thread assistant_id with
      | inl e => Some e
      | inr _ => None
      end
  | MessagesList thread =>
      match messages_list w thread with inl e => Some e | inr _ => None end
  | SpeechCreate _ _ input =>
      match speech_create w input with inl e => Some e | inr _ => None end
  | _ => None
  end.

(** The place of an effect in the order of the handler's source. *)
Definition stage (ev : Event) : nat :=
  match ev with
  | RequestJson => 0
  | ThreadsCreate _ => 1
  | RunsCreateAndPoll _ _ _ => 2
  | MessagesList _ => 3
  | JsonParse _ => 4
  | SpeechCreate _ _ _ => 5
  | ConsoleError _ => 6
  end.

End Route.

(** * The page component *)

Module Page.

(** The modes "notes" and "notes+audio", the languages and the themes. *)
Inductive Mode : Type := notes_only | notes_audio.
Inductive Language : Type := en | sv.
Inductive Theme : Type := light | dark.

(** The three interfaces of the page, with the types they declare. *)
Record RecapResponse : Type := {
  notes_markdown : jsstring;
  audioBase64 : option jsstring;
  mimeType : option jsstring
}.

Record HistoryItem : Type := {
  id : jsstring;
  createdAt : jsstring;
  item_mode : Mode;
  item_language : Language;
  notesSnippet : jsstring
}.

Record Blob : Type := { blob_bytes : list N; blob_type : jsstring }.

Definition HISTORY_KEY : jsstring := lit "meetingRecapHistory".
Definition THEME_KEY : jsstring := lit "meetingRecapTheme".

(** A string of [localStorage], held as the value it serialises: the
    history list goes through [JSON.stringify], the theme is written as
    it is. *)
Inductive Stored : Type :=
  | StoredHistory (items : list HistoryItem)
  | StoredTheme (t : Theme).

(** The component's state hooks and the browser's [localStorage]. *)
Record State : Type := {
  mode : Mode;
  language : Language;
  transcript : jsstring;
  loading : bool;
  notes : jsstring;
  audioUrl : option jsstring;
  audioBlob : option Blob;
  error : option jsstring;
  history : list HistoryItem;
  theme : Theme;
  localStorage : gmap jsstring Stored
}.

Definition setError (e : option jsstring) (s : State) : State :=
  {| mode := mode s; language := language s; transcript := transcript s;
     loading := loading s; notes := notes s; audioUrl := audioUrl s;
     audioBlob := audioBlob s; error := e; history := history s;
     theme := theme s; localStorage := localStorage s |}.

Definition setNotes (n : jsstring) (s : State) : State :=
  {| mode := mode s; language := language s; transcript := transcript s;
     loading := loading s; notes := n; audioUrl := audioUrl s;
     audioBlob := audioBlob s; error := error s; history := history s;
     theme := theme s; localStorage := localStorage s |}.

Definition setAudioUrl (u : option jsstring) (s : State) : State :=
  {| mode := mode s; language := language s; transcript := transcript s;
     loading := loading s; notes := notes s; audioUrl := u;
     audioBlob := audioBlob s; error := error s; history := history s;
     theme := theme s; localStorage := localStorage s |}.

Definition setAudioBlob (b : option Blob) (s : State) : State :=
  {| mode := mode s; language := language s; transcript := transcript s;
     loading := loading s; notes := notes s; audioUrl := audioUrl s;
     audioBlob := b; error := error s; history := history s;
     theme := theme s; localStorage := localStorage s |}.

Definition setLoading (l : bool) (s : State) : State :=
  {| mode := mode s; language := language s; transcript := transcript s;
     loading := l; notes := notes s; audioUrl := audioUrl s;
     audioBlob := audioBlob s; error := error s; history := history s;
     theme := theme s; localStorage := localStorage s |}.

Definition setHistory (h : list HistoryItem) (s : State) : State :=
  {| mode := mode s; language := language s; transcript := transcript s;
     loading := loading s; notes := notes s; audioUrl := audioUrl s;
     audioBlob := audioBlob s; error := error s; history := h;
     theme := theme s; localStorage := localStorage s |}.

Definition setTheme (t : Theme) (s : State) : State :=
  {| mode := mode s; language := language s; transcript := transcript s;
     loading := loading s; notes := notes s; audioUrl := audioUrl s;
     audioBlob := audioBlob s; error := error s; history := history s;
     theme := t; localStorage := localStorage s |}.

Definition localStorage_setItem (key : jsstring) (v : Stored) (s : State)
  : State :=
  {| mode := mode s; language := language s; transcript := transcript s;
     loading := loading s; notes := notes s; audioUrl := audioUrl s;
     audioBlob := audioBlob s; error := error s; history := history s;
     theme := theme s; localStorage := <[key := v]> (localStorage s) |}.

(** A state setter as a step of a computation. *)
Definition set (f : State → State) : Eff State unit := λ s, (inr (), f s).

(** The values of the hooks that the running handler closes over. *)
Definition rendered : Eff State State := λ s, (inr s, s).

Definition persistHistory (next : list HistoryItem) (s : State) : State :=
  localStorage_setItem HISTORY_KEY (StoredHistory next) (setHistory next s).

Definition toggleTheme (s : State) : State :=
  let next := match theme s with light => dark | dark => light end in
  localStorage_setItem THEME_KEY (StoredTheme next) (setTheme next s).

(** The body of the request the page posts. *)
Record RecapBody : Type := {
  body_transcript : jsstring;
  body_mode : Mode;
  body_language : Language
}.

(** The answer of [fetch]. *)
Record FetchResponse : Type := {
  ok : bool;
  res_status : nat;
  res_text : JsError + jsstring;
  res_json : JsError + RecapResponse
}.

(** What the browser answers during one run of [handleGenerate]. *)
Record Browser : Type := {
  fetch_recap : RecapBody → JsError + FetchResponse;
  (* [String(Date.now())] and [new Date().toISOString()] *)
  Date_now : jsstring;
  Date_toISOString : jsstring;
  atob : jsstring → JsError + jsstring;
  createObjectURL : Blob → jsstring
}.

(** The decimal digits of a number inside a template literal. *)
Definition decimal (n : nat) : jsstring :=
  lit (DecimalString.NilEmpty.string_of_uint (Nat.to_uint n)).

Definition Error (msg : jsstring) : JsError :=
  {| err_name := lit "Error"; err_message := msg |}.

(** [s || e] for a string [s] and the empty string [e]. *)
Definition or_empty (s : jsstring) : jsstring :=
  if nonempty s then s else [].

(** The bytes of [new Uint8Array(byteNumbers)]: each char code modulo 256. *)
Definition base64ToBlob (b : Browser) (base64 mimeType : jsstring)
  : Eff State Blob :=
  byteChars ← settle (atob b base64);
  mret {| blob_bytes := map (λ c, c mod 256) byteChars;
          blob_type := mimeType |}.

Definition handleGenerate (b : Browser) : Eff State unit :=
  s ← rendered;
  set (setError None);;
  set (setNotes []);;
  set (setAudioUrl None);;
  set (setAudioBlob None);;
  (if negb (nonempty (trim (transcript s))) then
     set (setError
            (Some (lit "Please paste a transcript or upload a text file first.")))
   else
     set (setLoading true);;
     try_catch
       (res ← settle (fetch_recap b
                        {| body_transcript := transcript s;
                           body_mode := mode s;
                           body_language := language s |});
        (if negb (ok res) then
           text ← settle (res_text res);
           throw (Error (lit "Error " ++ decimal (res_status res)
                           ++ lit ": " ++ text))
         else mret ());;
        data ← settle (res_json res);
        set (setNotes (or_empty (notes_markdown data)));;
        let item :=
          {| id := Date_now b;
             createdAt := Date_toISOString b;
             item_mode := mode s;
             item_language := language s;
             notesSnippet := slice0 120 (or_empty (notes_markdown data)) |} in
        let nextHistory := take 20 (item :: history s) in
        set (persistHistory nextHistory);;
        match audioBase64 data, mimeType data with
        | Some base64, Some mime =>
            if nonempty base64 && nonempty mime then
              blob ← base64ToBlob b base64 mime;
              set (setAudioBlob (Some blob));;
              set (setAudioUrl (Some (createObjectURL b blob)))
            else mret ()
        | _, _ => mret ()
        end)
       (λ err, set (setError (Some (error_text err))));;
     set (setLoading false)).

(** The entries of the archive and what the page hands to the browser. *)
Inductive ZipEntry : Type :=
  | TextEntry (text : jsstring)
  | BlobEntry (blob : Blob).

Record Download : Type := {
  download : jsstring;
  archive : gmap jsstring ZipEntry
}.

(** [zip.file(name, data)]. *)
Definition zip_file (name : jsstring) (data : ZipEntry)
    (zip : gmap jsstring ZipEntry) : gmap jsstring ZipEntry :=
  <[name := data]> zip.

Definition handleDownloadZip (s : State) : State * option Download :=
  if negb (nonempty (notes s)) then
    (setError (Some (lit "There are no notes to download yet.")) s, None)
  else
    let zip := zip_file (lit "meeting_notes.md") (TextEntry (notes s)) ∅ in
    let zip :=
      match audioBlob s with
      | Some blob => zip_file (lit "meeting_recap.mp3") (BlobEntry blob) zip
      | None => zip
      end in
    (s, Some {| download := lit "meeting_recap_bundle.zip"; archive := zip |}).

Definition restoreFromHistory (item : HistoryItem) (s : State) : State :=
  setNotes
    (notesSnippet item
       ++ (if (length (notesSnippet item) =? 120)%nat then lit " ..." else []))
    s.

(** The entry that a run of [handleGenerate] records, if it gets as far
    as recording one: the transcript is not blank, [fetch] answers with an
    [ok] response and its body decodes. *)
Definition generated (b : Browser) (s : State) : option HistoryItem :=
  if nonempty (trim (transcript s)) then
    match fetch_recap b {| body_transcript := transcript s;
                           body_mode := mode s;
                           body_language := language s |} with
    | inr res =>
        if ok res then
          match res_json res with
          | inr data =>
              Some {| id := Date_now b;
                      createdAt := Date_toISOString b;
                      item_mode := mode s;
                      item_language := language s;
                      notesSnippet :=
                        slice0 120 (or_empty (notes_markdown data)) |}
          | inl _ => None
          end
        else None
    | inl _ => None
    end
  else None.

(** The page after one click on "Generate recap" per browser answer. *)
Fixpoint generations (bs : list Browser) (s : State) : State :=
  match bs with
  | [] => s
  | b :: bs' => generations bs' (handleGenerate b s).2
  end.

(** The entries recorded along the way, oldest first. *)
Fixpoint recorded (bs : list Browser) (s : State) : list HistoryItem :=
  match bs with
  | [] => []
  | b :: bs' =>
      option_list (generated b s) ++ recorded bs' (handleGenerate b s).2
  end.

Definition short (item : HistoryItem) : Prop :=
  (length (notesSnippet item) ≤ 120)%nat.

(** The audio that an answer carries, by the test of [handleGenerate]:
    both fields present and not empty. *)
Definition carried_audio (data : RecapResponse) : option (jsstring * jsstring) :=
  match audioBase64 data, mimeType data with
  | Some base64, Some mime =>
      if nonempty base64 && nonempty mime then Some (base64, mime) else None
  | _, _ => None
  end.

(** ** The rest of the component *)

Definition setMode (m : Mode) (s : State) : State :=
  {| mode := m; language := language s; transcript := transcript s;
     loading := loading s; notes := notes s; audioUrl := audioUrl s;
     audioBlob := audioBlob s; error := error s; history := history s;
     theme := theme s; localStorage := localStorage s |}.

Definition setLanguage (l : Language) (s : State) : State :=
  {| mode := mode s; language := l; transcript := transcript s;
     loading := loading s; notes := notes s; audioUrl := audioUrl s;
     audioBlob := audioBlob s; error := error s; history := history s;
     theme := theme s; localStorage := localStorage s |}.

Definition setTranscript (t : jsstring) (s : State) : State :=
  {| mode := mode s; language := language s; transcript := t;
     loading := loading s; notes := notes s; audioUrl := audioUrl s;
     audioBlob := audioBlob s; error := error s; history := history s;
     theme := theme s; localStorage := localStorage s |}.

(** The first render: the initial values of the hooks, over what the
    browser's storage holds. *)
Definition first_render (store : gmap jsstring Stored) : State :=
  {| mode := notes_only; language := en; transcript := [];
     loading := false; notes := []; audioUrl := None; audioBlob := None;
     error := None; history := []; theme := dark; localStorage := store |}.

(** The effect that runs once after the first render.  The theme is the
    stored string, or "dark" when there is none; a stored string that is no
    theme acts as "dark", since every test on the theme compares it with
    "light".  The history is read only from a string that [JSON.parse]
    decodes. *)
Definition useEffect_mount (s : State) : State :=
  let storedTheme :=
    match localStorage s !! THEME_KEY with
    | Some (StoredTheme t) => t
    | _ => dark
    end in
  let s := setTheme storedTheme s in
  match localStorage s !! HISTORY_KEY with
  | Some (StoredHistory data) => setHistory data s
  | _ => s
  end.

(** [s.split(sep)] for a separator of one code unit. *)
Fixpoint split (sep : N) (s : jsstring) : list jsstring :=
  match s with
  | [] => [[]]
  | c :: s' =>
      if c =? sep then [] :: split sep s'
      else match split sep s' with
           | seg :: segs => (c :: seg) :: segs
           | [] => [[c]]
           end
  end.

(** [s.toLowerCase()] on the letters A to Z.  The result is only compared
    with "txt" and "md", and no other character lowers to one of their
    letters, so the comparison comes out as in the engine. *)
Definition toLowerCase (s : jsstring) : jsstring :=
  map (λ c, if (65 <=? c) && (c <=? 90) then c + 32 else c) s.

Record File : Type := { file_name : jsstring; file_type : jsstring }.

(** What the [FileReader] reports: [onload] with its result, or
    [onerror]. *)
Inductive ReadOutcome : Type :=
  | Loaded (result : jsstring)
  | Failed.

Definition allowed : list jsstring :=
  [lit "text/plain"; lit "text/markdown"; []].

(** [file] is [e.target.files?.[0]]. *)
Definition handleFileChange (file : option File) (read : ReadOutcome)
    (s : State) : State :=
  match file with
  | None => s
  | Some file =>
      let ext := toLowerCase <$> last (split 46 (file_name file)) in
      if negb (bool_decide (file_type file ∈ allowed))
         && negb (bool_decide (ext = Some (lit "txt")))
         && negb (bool_decide (ext = Some (lit "md")))
      then
        setError
          (Some (lit "Only plain text files (.txt, .md) are supported in this version."))
          s
      else
        match read with
        | Loaded result => setTranscript (or_empty result) s
        | Failed => setError (Some (lit "Failed to read file.")) s
        end
  end.

(** What the user can do on the page, with what the browser answers. *)
Inductive Action : Type :=
  | ClickGenerate (b : Browser)
  | ClickDownloadZip
  | ChangeFile (file : option File) (read : ReadOutcome)
  | ClickViewSnippet (item : HistoryItem)
  | ClickToggleTheme
  | ChooseMode (m : Mode)
  | ChooseLanguage (l : Language)
  | TypeTranscript (t : jsstring).

Definition act (a : Action) (s : State) : State :=
  match a with
  | ClickGenerate b => (handleGenerate b s).2
  | ClickDownloadZip => (handleDownloadZip s).1
  | ChangeFile file read => handleFileChange file read s
  | ClickViewSnippet item => restoreFromHistory item s
  | ClickToggleTheme => toggleTheme s
  | ChooseMode m => setMode m s
  | ChooseLanguage l => setLanguage l s
  | TypeTranscript t => setTranscript t s
  end.

Definition session (actions : list Action) (s : State) : State :=
  foldl (λ s a, act a s) s actions.

(** The page after a reload: the hooks start again from their initial
    values, over the storage as the session left it, and the mount effect
    runs. *)
Definition reload (s : State) : State :=
  useEffect_mount (first_render (localStorage s)).

(** What a reload would bring back is what the page shows. *)
Definition synced (s : State) : Prop :=
  history (reload s) = history s ∧ theme (reload s) = theme s.

Definition other_theme (t : Theme) : Theme :=
  match t with light => dark | dark => light end.

Definition is_toggle (a : Action) : bool :=
  match a with ClickToggleTheme => true | _ => false end.

End Page.

(** * Decoding base64 in the browser

    [window.atob] is the "forgiving-base64 decode" of the WHATWG Infra
    standard. *)

Module Atob.

Definition is_ascii_whitespace (c : N) : bool :=
  (c =? 9) || (c =? 10) || (c =? 12) || (c =? 13) || (c =? 32).

(** The value of a character of the base64 alphabet. *)
Definition base64_value (c : N) : option N :=
  if (65 <=? c) && (c <=? 90) then Some (c - 65)
  else if (97 <=? c) && (c <=? 122) then Some (c - 97 + 26)
  else if (48 <=? c) && (c <=? 57) then Some (c - 48 + 52)
  else if c =? 43 then Some 62
  else if c =? 47 then Some 63
  else None.

(** Removal of one or two "=" from the end. *)
Definition strip_padding (data : jsstring) : jsstring :=
  match rev data with
  | c1 :: c2 :: r =>
      if c1 =? 61 then (if c2 =? 61 then rev r else rev (c2 :: r)) else data
  | [c1] => if c1 =? 61 then [] else data
  | [] => data
  end.

(** The bytes of a run of 6-bit values; the bits left over at the end are
    discarded. *)
Fixpoint bytes_of_values (vs : list N) : list N :=
  match vs with
  | a :: b :: c :: d :: rest =>
      N.lor (N.shiftl a 2) (N.shiftr b 4)
      :: N.lor (N.shiftl (N.land b 15) 4) (N.shiftr c 2)
      :: N.lor (N.shiftl (N.land c 3) 6) d
      :: bytes_of_values rest
  | [a; b; c] =>
      [N.lor (N.shiftl a 2) (N.shiftr b 4);
       N.lor (N.shiftl (N.land b 15) 4) (N.shiftr c 2)]
  | [a; b] => [N.lor (N.shiftl a 2) (N.shiftr b 4)]
  | _ => []
  end.

Definition forgiving_base64_decode (data : jsstring) : option (list N) :=
  let data := List.filter (λ c, negb (is_ascii_whitespace c)) data in
  let data :=
    if (length data mod 4 =? 0)%nat then strip_padding data else data in
  if (length data mod 4 =? 1)%nat then None
  else bytes_of_values <$> mapM base64_value data.

(** [atob]: the decoded bytes as a string, or an "InvalidCharacterError"
    with the browser's wording. *)
Definition window_atob (wording : jsstring) (data : jsstring)
  : JsError + jsstring :=
  match forgiving_base64_decode data with
  | Some bytes => inr bytes
  | None =>
      inl {| err_name := lit "InvalidCharacterError";
             err_message := wording |}
  end.

End Atob.

(** * The request on the wire *)

Module Wire.

Definition mode_text (m : Page.Mode) : jsstring :=
  match m with
  | Page.notes_only => lit "notes"
  | Page.notes_audio => lit "notes+audio"
  end.

Definition language_text (l : Page.Language) : jsstring :=
  match l with
  | Page.en => lit "en"
  | Page.sv => lit "sv"
  end.

(** What [request.json()] yields in the route for the body that the page
    passes to [fetch]: [JSON.stringify({ transcript, mode, language })]
    decoded again. *)
Definition request_of_body (b : Page.RecapBody) : Route.Request :=
  {| Route.request_json :=
       inr (obj [("transcript", JStr (Page.body_transcript b));
                 ("mode", JStr (mode_text (Page.body_mode b)));
                 ("language", JStr (language_text (Page.body_language b)))]) |}.



End Wire.

(** * Sample requests and worlds *)

Module Samples.
Import Route.

(** A string literal of JSON text: the characters between double quotes. *)
Definition quoted (s : string) : jsstring := [34] ++ lit s ++ [34].

(** The text [{"notes_markdown":"# Notes","voiceover_script":"Hello"}]. *)
Definition answer_text : jsstring :=
  lit "{" ++ quoted "notes_markdown" ++ lit ":" ++ quoted "# Notes"
  ++ lit "," ++ quoted "voiceover_script" ++ lit ":" ++ quoted "Hello"
  ++ lit "}".

(** [JSON.parse] on the texts that the samples use; every other text is
    taken to be undecodable. *)
Definition sample_parse (raw : jsstring) : option json :=
  if bool_decide (raw = answer_text) then
    Some (obj [("notes_markdown", JStr (lit "# Notes"));
               ("voiceover_script", JStr (lit "Hello"))])
  else if bool_decide (raw = lit "{}") then Some (JObj ∅)
  else if bool_decide (raw = lit "null") then Some JNull
  else None.

Definition text_message (r : Role) (text : jsstring) : Message :=
  {| msg_role := r; msg_content := [TextPart text] |}.

(** A configured world whose run ends in [st] and whose thread then holds
    [messages]; speech synthesis yields the three bytes of "Man". *)
Definition world (st : RunStatus) (messages : list Message) : World :=
  {| OPENAI_API_KEY := Some (lit "sk-sample");
     OPENAI_ASSISTANT_ID := Some (lit "asst_sample");
     threads_create := λ _, inr {| thread_id := lit "thread_1" |};
     runs_createAndPoll := λ _ _, inr {| run_status := st |};
     messages_list := λ _, inr messages;
     JSON_parse := sample_parse;
     speech_create := λ _, inr [Byte.x4d; Byte.x61; Byte.x6e] |}.

(** The same world without the assistant's identifier, and with a
    credential that is set to the empty string. *)
Definition without_assistant (w : World) : World :=
  {| OPENAI_API_KEY := OPENAI_API_KEY w;
     OPENAI_ASSISTANT_ID := None;
     threads_create := threads_create w;
     runs_createAndPoll := runs_createAndPoll w;
     messages_list := messages_list w;
     JSON_parse := JSON_parse w;
     speech_create := speech_create w |}.

Definition with_empty_key (w : World) : World :=
  {| OPENAI_API_KEY := Some [];
     OPENAI_ASSISTANT_ID := OPENAI_ASSISTANT_ID w;
     threads_create := threads_create w;
     runs_createAndPoll := runs_createAndPoll w;
     messages_list := messages_list w;
     JSON_parse := JSON_parse w;
     speech_create := speech_create w |}.

(** The same world without the service credential. *)
Definition unconfigured (w : World) : World :=
  {| OPENAI_API_KEY := None;
     OPENAI_ASSISTANT_ID := OPENAI_ASSISTANT_ID w;
     threads_create := threads_create w;
     runs_createAndPoll := runs_createAndPoll w;
     messages_list := messages_list w;
     JSON_parse := JSON_parse w;
     speech_create := speech_create w |}.

Definition answered : list Message :=
  [text_message assistant answer_text;
   text_message user (lit "Alice: let us ship Friday.")].

Definition good_world : World := world completed answered.
Definition failed_world : World := world failed [].
Definition garbled_world : World :=
  world completed [text_message assistant (lit "Sorry, no notes.")].

(** The assistant answers with the empty object. *)
Definition empty_object_world : World :=
  world completed [text_message assistant (lit "{}")].

(** The assistant's first message is empty, its second one is well formed. *)
Definition late_answer : list Message :=
  [{| msg_role := assistant; msg_content := [] |};
   text_message assistant answer_text].
Definition late_answer_world : World := world completed late_answer.

Definition request_of (fields : list (string * json)) : Request :=
  {| request_json := inr (obj fields) |}.

Definition notes_request : Request :=
  request_of [("transcript", JStr (lit "Alice: let us ship Friday."));
              ("mode", JStr (lit "notes")); ("language", JStr (lit "en"))].
Definition audio_request : Request :=
  request_of [("transcript", JStr (lit "Alice: let us ship Friday."));
              ("mode", JStr (lit "notes+audio"));
              ("language", JStr (lit "sv"))].
Definition padded_request : Request :=
  request_of [("transcript", JStr (lit " hi "))].
Definition blank_request : Request :=
  request_of [("transcript", JStr (lit "   "));
              ("mode", JStr (lit "notes"))].

(** The response to [audio_request] in [good_world]. *)
Definition audio_response : Response :=
  NextResponse_json
    (obj [("notes_markdown", JStr (lit "# Notes"));
          ("audioBase64", JStr (lit "TWFu"));
          ("mimeType", JStr (lit "audio/mpeg"))]) None.

(** The condition on the assistant's answer in the words of the
    specification: some message of the assistant holds exactly one part,
    a text that decodes to an object with the key [notes_markdown]. *)
Definition spec_answer_condition (w : World) (messages : list Message)
  : Prop :=
  ∃ m raw o,
    m ∈ messages ∧ msg_role m = assistant ∧
    msg_content m = [TextPart raw] ∧
    JSON_parse w raw = Some (JObj o) ∧ is_Some (o !! lit "notes_markdown").

Definition parser_succeeds (w : World) (thread : jsstring) : Prop :=
  ∃ nm vs log, read_assistant w thread [] = (inr (inr (nm, vs)), log).

(** The page as it first renders, with nothing stored yet. *)
Definition initial_page : Page.State :=
  {| Page.mode := Page.notes_only; Page.language := Page.en;
     Page.transcript := []; Page.loading := false; Page.notes := [];
     Page.audioUrl := None; Page.audioBlob := None; Page.error := None;
     Page.history := []; Page.theme := Page.dark;
     Page.localStorage := ∅ |}.

Definition with_transcript (t : jsstring) (s : Page.State) : Page.State :=
  {| Page.mode := Page.mode s; Page.language := Page.language s;
     Page.transcript := t; Page.loading := Page.loading s;
     Page.notes := Page.notes s; Page.audioUrl := Page.audioUrl s;
     Page.audioBlob := Page.audioBlob s; Page.error := Page.error s;
     Page.history := Page.history s; Page.theme := Page.theme s;
     Page.localStorage := Page.localStorage s |}.

(** A browser whose [fetch] answers 200 with notes of 130 characters and
    no audio. *)
Definition long_notes : jsstring := replicate 130 97.

Definition answering_browser : Page.Browser :=
  {| Page.fetch_recap := λ _,
       inr {| Page.ok := true; Page.res_status := 200;
              Page.res_text := inr [];
              Page.res_json :=
                inr {| Page.notes_markdown := long_notes;
                       Page.audioBase64 := None;
                       Page.mimeType := None |} |};
     Page.Date_now := lit "1700000000000";
     Page.Date_toISOString := lit "2023-11-14T22:13:20.000Z";
     Page.atob := λ s, inr s;
     Page.createObjectURL := λ _, lit "blob:sample" |}.

Definition ready_page : Page.State :=
  with_transcript (lit "Alice: let us ship Friday.") initial_page.

Definition twenty_one_answers : list Page.Browser :=
  replicate 21 answering_browser.

Definition full_snippet : jsstring := replicate 120 97.

Definition full_item : Page.HistoryItem :=
  {| Page.id := lit "1700000000000";
     Page.createdAt := lit "2023-11-14T22:13:20.000Z";
     Page.item_mode := Page.notes_only; Page.item_language := Page.en;
     Page.notesSnippet := full_snippet |}.

(** ** More samples *)

(** A request whose body is no JSON, with the engine's error. *)
Definition syntax_error : JsError :=
  {| err_name := lit "SyntaxError";
     err_message := lit "Unexpected end of JSON input" |}.
Definition bad_json_request : Request := {| request_json := inl syntax_error |}.

(** The bodies [{ mode: notes }] and [null]. *)
Definition no_transcript_request : Request :=
  request_of [("mode", JStr (lit "notes"))].
Definition null_request : Request := {| request_json := inr JNull |}.

(** The response to [notes_request] in [good_world]. *)
Definition notes_response : Response :=
  NextResponse_json
    (obj [("notes_markdown", JStr (lit "# Notes"));
          ("audioBase64", JNull); ("mimeType", JNull)]) None.

(** A world like [good_world] whose speech service refuses. *)
Definition quota_error : JsError :=
  {| err_name := lit "Error"; err_message := lit "429 quota exceeded" |}.
Definition speechless_world : World :=
  {| OPENAI_API_KEY := OPENAI_API_KEY good_world;
     OPENAI_ASSISTANT_ID := OPENAI_ASSISTANT_ID good_world;
     threads_create := threads_create good_world;
     runs_createAndPoll := runs_createAndPoll good_world;
     messages_list := messages_list good_world;
     JSON_parse := JSON_parse good_world;
     speech_create := λ _, inl quota_error |}.

(** The page with the sample transcript, asking for Swedish notes with
    audio: what it posts is [audio_request]. *)
Definition audio_page : Page.State :=
  Page.setLanguage Page.sv (Page.setMode Page.notes_audio ready_page).

(** A browser whose [fetch] delivers [data] with status 200, and whose
    [atob] is the decoder of the standard. *)
Definition delivering (data : Page.RecapResponse) : Page.Browser :=
  {| Page.fetch_recap := λ _,
       inr {| Page.ok := true; Page.res_status := 200;
              Page.res_text := inr [];
              Page.res_json := inr data |};
     Page.Date_now := lit "1700000000000";
     Page.Date_toISOString := lit "2023-11-14T22:13:20.000Z";
     Page.atob :=
       Atob.window_atob (lit "The string to be decoded is not correctly encoded.");
     Page.createObjectURL := λ _, lit "blob:sample" |}.

Definition broken_audio_data : Page.RecapResponse :=
  {| Page.notes_markdown := lit "# Notes";
     Page.audioBase64 := Some (lit "!!!");
     Page.mimeType := Some (lit "audio/mpeg") |}.

(** A browser whose [fetch] is answered with status 500. *)
Definition refused : Page.FetchResponse :=
  {| Page.ok := false; Page.res_status := 500;
     Page.res_text := inr (lit "upstream down");
     Page.res_json := inl syntax_error |}.
Definition refusing_browser : Page.Browser :=
  {| Page.fetch_recap := λ _, inr refused;
     Page.Date_now := lit "1700000000000";
     Page.Date_toISOString := lit "2023-11-14T22:13:20.000Z";
     Page.atob := λ s, inr s;
     Page.createObjectURL := λ _, lit "blob:sample" |}.

(** A page that shows notes and holds the audio of its latest run. *)
Definition man_blob : Page.Blob :=
  {| Page.blob_bytes := [77; 97; 110]; Page.blob_type := lit "audio/mpeg" |}.
Definition playing_page : Page.State :=
  Page.setAudioBlob (Some man_blob) (Page.setNotes (lit "# Notes") ready_page).

(** Uploads: a text file in capitals with a binary type, and a recording. *)
Definition capitals_file : Page.File :=
  {| Page.file_name := lit "Stand-up.v2.TXT";
     Page.file_type := lit "application/octet-stream" |}.
Definition recording_file : Page.File :=
  {| Page.file_name := lit "standup.mp3"; Page.file_type := lit "audio/mpeg" |}.

End Samples.

(** * Properties of strings *)

Module JsFacts.

Lemma trimStart_blank (s : jsstring) :
  Forall (λ c, is_whitespace c = true) s → trimStart s = [].
Proof.
  induction 1 as [|c s Hc _ IH]; [done|].
  cbn [trimStart]. by rewrite Hc.
Qed.

Lemma trim_blank (s : jsstring) :
  Forall (λ c, is_whitespace c = true) s → trim s = [].
Proof. intros H. unfold trim, trimEnd. by rewrite (trimStart_blank s H). Qed.

Lemma trimStart_nil (s : jsstring) :
  trimStart s = [] → Forall (λ c, is_whitespace c = true) s.
Proof.
  induction s as [|c s IH]; [constructor|]. cbn [trimStart].
  destruct (is_whitespace c) eqn:Hc; [|done].
  intros H. constructor; [done|by apply IH].
Qed.

Lemma trimStart_head (s r : jsstring) (c : N) :
  trimStart s = c :: r → is_whitespace c = false.
Proof.
  induction s as [|c' s IH]; [done|]. cbn [trimStart].
  destruct (is_whitespace c') eqn:Hc; [done|]. congruence.
Qed.

(** [trim] leaves nothing exactly of the strings that are empty or hold
    only whitespace. *)
Lemma trim_nil_iff (s : jsstring) :
  trim s = [] ↔ Forall (λ c, is_whitespace c = true) s.
Proof.
  split; [|apply trim_blank].
  unfold trim, trimEnd. intros H.
  apply (f_equal (@rev N)) in H. rewrite rev_involutive in H. cbn [rev] in H.
  apply trimStart_nil, Forall_rev in H. rewrite rev_involutive in H.
  destruct (trimStart s) as [|c r] eqn:Hs; [by apply trimStart_nil|].
  apply trimStart_head in Hs. apply Forall_cons in H as [Hc _]. congruence.
Qed.

Lemma nonempty_false (s : jsstring) : nonempty s = false ↔ s = [].
Proof. by destruct s. Qed.

Lemma nonempty_true (s : jsstring) : nonempty s = true ↔ s ≠ [].
Proof. by destruct s. Qed.

(** Falling back to the empty string leaves every string as it is. *)
Lemma trim_or_else (s : jsstring) :
  or_else (Some (JStr s)) (JStr []) = JStr s.
Proof. by destruct s. Qed.

Example trim_ex : trim (lit "  hi there ") = lit "hi there".
Proof. reflexivity. Qed.

End JsFacts.

(** * Properties of the route *)

Module RouteProofs.
Import Route JsFacts.

(** ** Tactics *)

(** Unfolding of the monad's operations, leaving literals folded. *)
Ltac run_eff :=
  cbv [await emit settle throw attempt try_catch get call_trim
       mbind mret Eff_bind Eff_ret fst snd].

Ltac explore := repeat (case_match; simplify_eq/=).

(** Case analysis on [ev ∈ log] for a log that is written out. *)
Ltac in_log H :=
  cbn [app] in H;
  repeat first
    [ apply elem_of_nil in H; destruct H
    | apply elem_of_cons in H as [H|H]
    | apply elem_of_app in H as [H|H] ];
  simplify_eq.

(** ** Reading the request and the fields of the responses *)

Lemma read_request_object (request : Request) (o : gmap jsstring json)
    (s : jsstring) (log : list Event) :
  request_json request = inr (JObj o) →
  o !! lit "transcript" = Some (JStr s) →
  read_request request log =
    (inr (if nonempty (trim s)
          then inr (trim s,
                    or_else (o !! lit "mode") (JStr (lit "notes")),
                    or_else (o !! lit "language") (JStr (lit "en")))
          else inl (error_response (lit "Transcript is empty") 400)),
     log ++ [RequestJson]).
Proof.
  intros Hb Ht. unfold read_request. run_eff.
  rewrite Hb, Ht, trim_or_else. by destruct (nonempty (trim s)).
Qed.

Lemma read_request_inv (request : Request) (log log' : list Event) out :
  read_request request log = (out, log') →
  log' = log ++ [RequestJson] ∧
  match out with
  | inl e => ∃ bd, request_json request = inr bd
  | inr (inl early) =>
      early = error_response (lit "Invalid JSON") 400 ∨
      early = error_response (lit "Transcript is empty") 400
  | inr (inr (t, m, l)) =>
      ∃ o s, request_json request = inr (JObj o) ∧
             o !! lit "transcript" = Some (JStr s) ∧
             t = trim s ∧ nonempty t = true ∧
             m = or_else (o !! lit "mode") (JStr (lit "notes")) ∧
             l = or_else (o !! lit "language") (JStr (lit "en"))
  end.
Proof.
  unfold read_request. run_eff. intros H.
  destruct (request_json request) as [e|bd] eqn:Hb; [by simplify_eq; eauto|].
  destruct bd as [| | | | |o]; try by (simplify_eq/=; eauto).
  destruct (o !! lit "transcript") as [v|] eqn:Ht;
    [|by simplify_eq/=; eauto].
  destruct v as [|b|q|s|l|o'];
    [| | |rewrite trim_or_else in H| |]; explore; eauto.
  split; [done|]. exists o, s. by rewrite negb_false_iff in *.
Qed.

Lemma recap_fields (n a m : json) :
  field (obj [("notes_markdown", n); ("audioBase64", a); ("mimeType", m)])
        "audioBase64" = Some a ∧
  field (obj [("notes_markdown", n); ("audioBase64", a); ("mimeType", m)])
        "mimeType" = Some m ∧
  field (obj [("notes_markdown", n); ("audioBase64", a); ("mimeType", m)])
        "notes_markdown" = Some n.
Proof. by vm_compute. Qed.

Lemma raw_fields (e r : json) :
  field (obj [("error", e); ("raw", r)]) "error" = Some e ∧
  field (obj [("error", e); ("raw", r)]) "raw" = Some r.
Proof. by vm_compute. Qed.

Lemma error_field (msg : jsstring) (st : nat) :
  field (body (error_response msg st)) "error" = Some (JStr msg).
Proof. by vm_compute. Qed.

Lemma languageInstruction_sv :
  languageInstruction (JStr (lit "sv")) = Swedish_instruction.
Proof. reflexivity. Qed.

Lemma languageInstruction_other (language : json) :
  language ≠ JStr (lit "sv") →
  languageInstruction language = English_instruction.
Proof.
  intros H. unfold languageInstruction, strict_eq_str.
  destruct language; try done. case_bool_decide; congruence.
Qed.

Lemma language_default_not_sv (l : option json) :
  l ≠ Some (JStr (lit "sv")) →
  or_else l (JStr (lit "en")) ≠ JStr (lit "sv").
Proof.
  intros H. unfold or_else. destruct l as [v|]; [|by vm_compute].
  destruct (truthy v); [congruence|by vm_compute].
Qed.

(** ** The segments of the handler in one world *)

Section Segments.
Context (w : World).

Lemma read_assistant_inv (thread : jsstring)
    (log log' : list Event) out :
  read_assistant w thread log = (out, log') →
  (∃ e, messages_list w thread = inl e ∧ out = inl e ∧
        log' = log ++ [MessagesList thread]) ∨
  ∃ messages, messages_list w thread = inr messages ∧
    let first := find (λ m, bool_decide (msg_role m = assistant)) messages in
    ((first = None ∨ ∃ m, first = Some m ∧ msg_content m = []) ∧
     out = inr (inl (error_response (lit "No assistant response found") 500)) ∧
     log' = log ++ [MessagesList thread]) ∨
    (∃ m p parts, first = Some m ∧ msg_content m = p :: parts ∧
       (∀ raw, p ≠ TextPart raw) ∧
       out = inr (inl (error_response
                         (lit "Unexpected assistant content type") 500)) ∧
       log' = log ++ [MessagesList thread]) ∨
    (∃ m raw parts, first = Some m ∧ msg_content m = TextPart raw :: parts ∧
       log' = log ++ [MessagesList thread; JsonParse raw] ∧
       match JSON_parse w raw with
       | None =>
           out = inr (inl (NextResponse_json
                   (obj [("error",
                          JStr (lit "Failed to parse JSON from assistant"));
                         ("raw", JStr raw)])
                   (Some 500%nat)))
       | Some JNull =>
           out = inl (TypeError (null_property_message "notes_markdown"))
       | Some parsed =>
           out = inr (inr (nullish (field parsed "notes_markdown") (JStr []),
                           nullish (field parsed "voiceover_script") (JStr [])))
       end).
Proof.
  unfold read_assistant. run_eff. intros H.
  destruct (messages_list w thread) as [e|messages] eqn:Hm;
    [left; simplify_eq; eauto|right; exists messages; split; [done|]].
  cbv zeta.
  destruct (find _ messages) as [m|] eqn:Hf;
    [|left; simplify_eq; eauto].
  destruct (msg_content m) as [|p parts] eqn:Hc;
    [left; simplify_eq; eauto 6|].
  right.
  destruct p as [raw| | |];
    [right|left; simplify_eq; eauto 10..].
  exists m, raw, parts. rewrite <- (assoc_L (++)) in H.
  destruct (JSON_parse w raw) as [[]|]; by simplify_eq/=.
Qed.

Lemma pipeline_run (ASSISTANT_ID transcript : jsstring)
    (mode language : json) (log : list Event) :
  pipeline w ASSISTANT_ID transcript mode language log =
    let create := ThreadsCreate (seed language transcript) in
    match threads_create w (seed language transcript) with
    | inl e => (inl e, log ++ [create])
    | inr thread =>
        let poll := RunsCreateAndPoll (thread_id thread) ASSISTANT_ID
                                      (lit "json_object") in
        match runs_createAndPoll w (thread_id thread) ASSISTANT_ID with
        | inl e => (inl e, log ++ [create; poll])
        | inr run =>
            if bool_decide (run_status run = completed) then
              match read_assistant w (thread_id thread)
                                   (log ++ [create; poll]) with
              | (inl e, log1) => (inl e, log1)
              | (inr (inl early), log1) => (inr early, log1)
              | (inr (inr (notes_markdown, voiceover_script)), log1) =>
                  let speak := SpeechCreate (lit "gpt-4o-mini-tts")
                                 (lit "alloy") voiceover_script in
                  if strict_eq_str mode (lit "notes") then
                    (inr (NextResponse_json
                            (obj [("notes_markdown", notes_markdown);
                                  ("audioBase64", JNull);
                                  ("mimeType", JNull)]) None), log1)
                  else
                    match speech_create w voiceover_script with
                    | inl e => (inl e, log1 ++ [speak])
                    | inr buffer =>
                        (inr (NextResponse_json
                                (obj [("notes_markdown", notes_markdown);
                                      ("audioBase64",
                                       JStr (toString_base64 buffer));
                                      ("mimeType", JStr (lit "audio/mpeg"))])
                                None), log1 ++ [speak])
                    end
              end
            else
              (inr (error_response
                      (lit "Run did not complete: "
                         ++ status_text (run_status run)) 500),
               log ++ [create; poll])
        end
    end.
Proof.
  unfold pipeline, seed. run_eff. cbv zeta.
  destruct (threads_create w _) as [e|thread]; [done|].
  destruct (runs_createAndPoll w _ _) as [e|run];
    rewrite <- (assoc_L (++)); [done|]. cbn [app].
  destruct (bool_decide (run_status run = completed)); cbn [negb]; [|done].
  destruct (read_assistant w _ _) as [[e|[early|[nm vs]]] log1]; try done.
  destruct (strict_eq_str mode _); [done|].
  by destruct (speech_create w vs).
Qed.

Lemma handle_configured (request : Request) :
  is_set (OPENAI_API_KEY w) = true →
  is_set (OPENAI_ASSISTANT_ID w) = true →
  handle w request =
    match read_request request [] with
    | (inl e, log) => (inl e, log)
    | (inr (inl early), log) => (inr early, log)
    | (inr (inr (transcript, mode, language)), log) =>
        match pipeline w (default [] (OPENAI_ASSISTANT_ID w))
                       transcript mode language log with
        | (inl err, log') =>
            (inr (error_response (error_text err) 500),
             log' ++ [ConsoleError err])
        | (inr response, log') => (inr response, log')
        end
    end.
Proof.
  intros Hk Ha. unfold handle, POST. rewrite Hk, Ha. cbn [negb]. run_eff.
  destruct (read_request request []) as [[e|[early|[[t m] l]]] log]; try done.
  by destruct (pipeline w _ t m l log) as [[err|response] log'].
Qed.

Lemma handle_unconfigured (request : Request) :
  is_set (OPENAI_API_KEY w) && is_set (OPENAI_ASSISTANT_ID w) = false →
  ∃ msg, handle w request = (inr (error_response msg 500), []).
Proof.
  intros H. unfold handle, POST.
  destruct (is_set (OPENAI_API_KEY w)); cbn [negb]; [|by eexists].
  destruct (is_set (OPENAI_ASSISTANT_ID w)); [done|by eexists].
Qed.

Lemma ok_configured (request : Request) resp log :
  handle w request = (inr resp, log) → status resp = 200%nat →
  is_set (OPENAI_API_KEY w) = true ∧ is_set (OPENAI_ASSISTANT_ID w) = true.
Proof.
  intros H Hs.
  destruct (is_set (OPENAI_API_KEY w) && is_set (OPENAI_ASSISTANT_ID w))
    eqn:Hc; [by apply andb_true_iff in Hc|].
  destruct (handle_unconfigured request Hc) as [msg Hu].
  rewrite Hu in H. by simplify_eq/=.
Qed.

(** What a response of status 200 says about the run that produced it. *)
Lemma ok_inv (request : Request) resp log :
  handle w request = (inr resp, log) → status resp = 200%nat →
  ∃ o notes_markdown voiceover_script,
    request_json request = inr (JObj o) ∧
    if strict_eq_str (mode_of (JObj o)) (lit "notes") then
      resp = NextResponse_json
               (obj [("notes_markdown", notes_markdown);
                     ("audioBase64", JNull); ("mimeType", JNull)]) None
    else
      ∃ buffer,
        speech_create w voiceover_script = inr buffer ∧
        SpeechCreate (lit "gpt-4o-mini-tts") (lit "alloy") voiceover_script
          ∈ log ∧
        resp = NextResponse_json
                 (obj [("notes_markdown", notes_markdown);
                       ("audioBase64", JStr (toString_base64 buffer));
                       ("mimeType", JStr (lit "audio/mpeg"))]) None.
Proof.
  intros H Hs.
  destruct (ok_configured request resp log H Hs) as [Hk Ha].
  rewrite handle_configured in H by done.
  destruct (read_request request []) as [v log1] eqn:Hr.
  apply read_request_inv in Hr as [-> Hv].
  destruct v as [e|[early|[[t m] l]]]; [done|by destruct Hv; simplify_eq/=|].
  destruct Hv as (o & s & Ho & Ht & -> & Hne & -> & ->).
  rewrite pipeline_run in H. cbv zeta in H.
  destruct (threads_create w _) as [e|thread]; [by simplify_eq/=|].
  destruct (runs_createAndPoll w _ _) as [e|run]; [by simplify_eq/=|].
  destruct (bool_decide _); [|by simplify_eq/=].
  destruct (read_assistant w _ _) as [ans log1] eqn:Hra.
  apply read_assistant_inv in Hra
    as [(e & _ & -> & _)|(msgs & _ & [(_ & -> & _)|[(m & p & parts & _ & _ & _ & -> & _)|
         (m & raw & parts & _ & _ & _ & Hp)]])]; try by simplify_eq/=.
  exists o. unfold mode_of, field.
  destruct (JSON_parse w raw) as [parsed|]; [|by simplify_eq/=].
  destruct (strict_eq_str _ (lit "notes")).
  - destruct parsed; simplify_eq/=; by eexists _, JNull.
  - assert (∃ nm vs, ans = inr (inr (nm, vs))) as (nm & vs & ->).
    { destruct parsed; simplify_eq/=; eauto. }
    destruct (speech_create w vs) as [e|buffer] eqn:Hsp; [by simplify_eq/=|].
    exists nm, vs. split; [done|]. exists buffer. simplify_eq/=.
    split_and!; [done| |done]. apply elem_of_app. right. by left.
Qed.

(** Every run of the handler stops before the body is read, stops at the
    body, or enters the pipeline with a validated request. *)
Lemma handle_inv (request : Request) out log :
  handle w request = (out, log) →
  log = [] ∨ log = [RequestJson] ∨
  ∃ o s r log',
    request_json request = inr (JObj o) ∧
    o !! lit "transcript" = Some (JStr s) ∧
    nonempty (trim s) = true ∧
    pipeline w (default [] (OPENAI_ASSISTANT_ID w)) (trim s)
      (or_else (o !! lit "mode") (JStr (lit "notes")))
      (or_else (o !! lit "language") (JStr (lit "en")))
      [RequestJson] = (r, log') ∧
    match r with
    | inl err =>
        out = inr (error_response (error_text err) 500) ∧
        log = log' ++ [ConsoleError err]
    | inr resp => out = inr resp ∧ log = log'
    end.
Proof.
  intros H.
  destruct (is_set (OPENAI_API_KEY w) && is_set (OPENAI_ASSISTANT_ID w))
    eqn:Hc.
  - apply andb_true_iff in Hc as [Hk Ha].
    rewrite handle_configured in H by done.
    destruct (read_request request []) as [v log1] eqn:Hr.
    apply read_request_inv in Hr as [-> Hv].
    destruct v as [e|[early|[[t m] l]]];
      [right; left; by simplify_eq..|].
    destruct Hv as (o & s & Ho & Ht & -> & Hne & -> & ->).
    right; right. cbn [app] in H.
    destruct (pipeline w _ _ _ _ _) as [r log'] eqn:Hp.
    exists o, s, r, log'. by destruct r; simplify_eq.
  - destruct (handle_unconfigured request Hc) as [msg Hu].
    left. congruence.
Qed.

(** The events that reading the assistant's answer adds to the log. *)
Lemma read_assistant_log (thread : jsstring)
    (log log' : list Event) out :
  read_assistant w thread log = (out, log') →
  log' = log ++ [MessagesList thread] ∨
  ∃ raw, log' = log ++ [MessagesList thread; JsonParse raw].
Proof.
  intros H. apply read_assistant_inv in H
    as [(e & _ & _ & ->)|(msgs & _ & [(_ & _ & ->)|
         [(m & p & parts & _ & _ & _ & _ & ->)|
          (m & raw & parts & _ & _ & -> & _)]])]; eauto.
Qed.

(** The only poll of a run is the one on the thread just created. *)
Lemma pipeline_poll (ASSISTANT_ID transcript : jsstring)
    (mode language : json) (log log' : list Event) r
    (thread assistant_id format : jsstring) :
  pipeline w ASSISTANT_ID transcript mode language log = (r, log') →
  RunsCreateAndPoll thread assistant_id format ∈ log' →
  RunsCreateAndPoll thread assistant_id format ∈ log ∨
  ∃ th, threads_create w (seed language transcript) = inr th ∧
        thread = thread_id th ∧ assistant_id = ASSISTANT_ID ∧
        format = lit "json_object".
Proof.
  rewrite pipeline_run. cbv zeta. intros H Hin.
  destruct (threads_create w _) as [e|th]; [simplify_eq; in_log Hin; eauto|].
  destruct (runs_createAndPoll w _ _) as [e|run];
    [simplify_eq; in_log Hin; eauto 6|].
  destruct (bool_decide _); [|simplify_eq; in_log Hin; eauto 6].
  destruct (read_assistant w _ _) as [ans log1] eqn:Hra.
  apply read_assistant_log in Hra.
  assert (RunsCreateAndPoll thread assistant_id format ∈ log1) as Hin1.
  { destruct ans as [e|[early|[nm vs]]]; simplify_eq; try done.
    destruct (strict_eq_str _ _); simplify_eq; [done|].
    destruct (speech_create w vs); simplify_eq; by in_log Hin. }
  destruct Hra as [->|[raw ->]]; in_log Hin1; eauto 6.
Qed.

(** An answer that is not accepted ends the request with status 500. *)
Lemma malformed_answer_fails (thread : jsstring)
    (messages : list Message) (request : Request) out log :
  messages_list w thread = inr messages →
  handle w request = (out, log) →
  MessagesList thread ∈ log →
  ¬ answer_accepted w messages →
  ∃ resp, out = inr resp ∧ status resp = 500%nat ∧
          is_Some (field (body resp) "error").
Proof.
  intros Hm H Hin Hna.
  apply handle_inv in H
    as [->|[->|(o & s & r & log' & _ & _ & _ & Hp & Hr)]];
    [by in_log Hin..|].
  rewrite pipeline_run in Hp. cbv zeta in Hp.
  destruct (threads_create w _) as [e|th];
    [simplify_eq; destruct Hr as [_ ->]; by in_log Hin|].
  destruct (runs_createAndPoll w _ _) as [e|run];
    [simplify_eq; destruct Hr as [_ ->]; by in_log Hin|].
  destruct (bool_decide _);
    [|simplify_eq; destruct Hr as [_ ->]; by in_log Hin].
  destruct (read_assistant w _ _) as [ans log1] eqn:Hra.
  assert (MessagesList thread ∈ log1) as Hin1.
  { destruct ans as [e|[early|[nm vs]]]; simplify_eq.
    - destruct Hr as [_ ->]. by in_log Hin.
    - by destruct Hr as [_ ->].
    - destruct (strict_eq_str _ _); simplify_eq; [by destruct Hr as [_ ->]|].
      destruct (speech_create w vs); simplify_eq; destruct Hr as [_ ->];
        by in_log Hin. }
  assert (thread_id th = thread) as Hth.
  { destruct (read_assistant_log _ _ _ _ Hra) as [->|[raw ->]];
      by in_log Hin1. }
  rewrite Hth in Hra. clear Hin Hin1.
  apply read_assistant_inv in Hra
    as [(e & ? & _)|(msgs & Hm' & [(_ & -> & _)|
         [(m & p & parts & _ & _ & _ & -> & _)|
          (m & raw & parts & Hf & Hc & _ & Hans)]])]; [congruence| | |].
  - simplify_eq. destruct Hr as [-> _]. eexists. split; [done|].
    split; [done|]. by rewrite error_field.
  - simplify_eq. destruct Hr as [-> _]. eexists. split; [done|].
    split; [done|]. by rewrite error_field.
  - assert (msgs = messages) as -> by congruence.
    destruct (JSON_parse w raw) as [parsed|] eqn:Hparse.
    + destruct parsed;
        try (destruct Hna; exists m, raw, parts; by eauto).
      subst ans. simplify_eq. destruct Hr as [-> _].
      eexists. split; [done|]. split; [done|]. by rewrite error_field.
    + subst ans. simplify_eq. destruct Hr as [-> _].
      eexists. split; [done|]. split; [done|].
      cbn [body NextResponse_json]. by rewrite (proj1 (raw_fields _ _)).
Qed.

End Segments.

(** ** The claims *)

(** Claim C1.  In every response of status 200: when the request's mode
    is "notes", [audioBase64] and [mimeType] are both [null]; when it is
    "notes+audio", speech synthesis was called and succeeded, [audioBase64]
    is the base64 text of its bytes and [mimeType] is "audio/mpeg"; and in
    every case the two fields are both [null] or both strings. *)
Theorem recap_audio_fields (w : World) (request : Request) (bd : json)
    (resp : Response) (log : list Event) :
  handle w request = (inr resp, log) →
  status resp = 200%nat →
  request_json request = inr bd →
  (mode_of bd = JStr (lit "notes") →
     field (body resp) "audioBase64" = Some JNull ∧
     field (body resp) "mimeType" = Some JNull) ∧
  (mode_of bd = JStr (lit "notes+audio") →
     ∃ script buffer,
       SpeechCreate (lit "gpt-4o-mini-tts") (lit "alloy") script ∈ log ∧
       speech_create w script = inr buffer ∧
       field (body resp) "audioBase64" = Some (JStr (toString_base64 buffer)) ∧
       field (body resp) "mimeType" = Some (JStr (lit "audio/mpeg"))) ∧
  ((field (body resp) "audioBase64" = Some JNull ∧
    field (body resp) "mimeType" = Some JNull) ∨
   (∃ a m, field (body resp) "audioBase64" = Some (JStr a) ∧
           field (body resp) "mimeType" = Some (JStr m))).
Proof.
  intros H Hs Hb.
  destruct (ok_inv w request resp log H Hs) as (o & nm & vs & Ho & Hr).
  assert (bd = JObj o) as -> by congruence.
  destruct (strict_eq_str (mode_of (JObj o)) (lit "notes")) eqn:Hm.
  - subst resp. cbn [body NextResponse_json].
    destruct (recap_fields nm JNull JNull) as (-> & -> & _).
    split_and!; [done| |by left].
    intros Hm'. rewrite Hm' in Hm. by vm_compute in Hm.
  - destruct Hr as (buffer & Hsp & Hin & ->). cbn [body NextResponse_json].
    destruct (recap_fields nm (JStr (toString_base64 buffer))
                (JStr (lit "audio/mpeg"))) as (-> & -> & _).
    split_and!; [|by intros _; exists vs, buffer|by right; eauto].
    intros Hm'. rewrite Hm' in Hm. by vm_compute in Hm.
Qed.

(** Claim C2, as amended.  Reading the assistant's answer succeeds exactly
    when the first message of the assistant among those retrieved starts
    with a text part whose text [JSON.parse] decodes to a value other than
    [null]; the notes and the voiceover script are then the values of
    [notes_markdown] and [voiceover_script], each the empty string when
    absent or [null].  Every other answer ends the request with status 500
    and an [error] message. *)
Theorem parser_succeeds_iff (w : World) (thread : jsstring)
    (messages : list Message) :
  messages_list w thread = inr messages →
  (∀ log, (∃ nm vs log',
             read_assistant w thread log = (inr (inr (nm, vs)), log'))
          ↔ answer_accepted w messages) ∧
  (∀ log m raw parts parsed,
     find (λ m, bool_decide (msg_role m = assistant)) messages = Some m →
     msg_content m = TextPart raw :: parts →
     JSON_parse w raw = Some parsed → parsed ≠ JNull →
     read_assistant w thread log =
       (inr (inr (nullish (field parsed "notes_markdown") (JStr []),
                  nullish (field parsed "voiceover_script") (JStr []))),
        log ++ [MessagesList thread; JsonParse raw])) ∧
  (∀ request out log,
     handle w request = (out, log) →
     MessagesList thread ∈ log →
     ¬ answer_accepted w messages →
     ∃ resp, out = inr resp ∧ status resp = 500%nat ∧
             is_Some (field (body resp) "error")).
Proof.
  intros Hm.
  assert (∀ log m raw parts parsed,
     find (λ m, bool_decide (msg_role m = assistant)) messages = Some m →
     msg_content m = TextPart raw :: parts →
     JSON_parse w raw = Some parsed → parsed ≠ JNull →
     read_assistant w thread log =
       (inr (inr (nullish (field parsed "notes_markdown") (JStr []),
                  nullish (field parsed "voiceover_script") (JStr []))),
        log ++ [MessagesList thread; JsonParse raw])) as Hfwd.
  { intros log m raw parts parsed Hf Hc Hp Hnn.
    unfold read_assistant. run_eff. rewrite Hm, Hf, Hc, Hp.
    rewrite <- (assoc_L (++)). by destruct parsed. }
  split_and!; [|done|].
  - intros log. split.
    + intros (nm & vs & log' & H).
      apply read_assistant_inv in H
        as [(e & ? & _)|(msgs & Hm' & [(_ & ? & _)|
             [(m & p & parts & _ & _ & _ & ? & _)|
              (m & raw & parts & Hf & Hc & _ & Hans)]])]; try congruence.
      assert (msgs = messages) as -> by congruence.
      exists m, raw, parts.
      destruct (JSON_parse w raw) as [parsed|]; [|done].
      exists parsed. by destruct parsed.
    + intros (m & raw & parts & parsed & Hf & Hc & Hp & Hnn).
      eexists _, _, _. by eapply Hfwd.
  - intros request out log H Hin Hna.
    by apply (malformed_answer_fails w thread messages request out log).
Qed.

(** Claim C3, as amended.  For every request that passes validation,
    exactly one thread is created, right after the body is read, and it is
    seeded with a single user message: the language directive, the
    separator and the request's transcript with its leading and trailing
    whitespace removed.  The directive is the Swedish instruction when
    [language] is "sv" and the English one for every other or missing
    value. *)
Theorem thread_seeded_with_trimmed_transcript (w : World)
    (request : Request) (o : gmap jsstring json) (t : jsstring) :
  is_set (OPENAI_API_KEY w) = true →
  is_set (OPENAI_ASSISTANT_ID w) = true →
  request_json request = inr (JObj o) →
  o !! lit "transcript" = Some (JStr t) →
  trim t ≠ [] →
  ∃ directive rest,
    (handle w request).2 =
      RequestJson
      :: ThreadsCreate
           [{| role := user;
               content := directive ++ LF ++ LF ++ lit "Transcript:"
                            ++ LF ++ LF ++ trim t |}]
      :: rest ∧
    sessions_created (handle w request).2 = 1%nat ∧
    (o !! lit "language" = Some (JStr (lit "sv")) →
       directive = Swedish_instruction) ∧
    (o !! lit "language" ≠ Some (JStr (lit "sv")) →
       directive = English_instruction).
Proof.
  intros Hk Ha Hb Ht Hne.
  exists (languageInstruction
            (or_else (o !! lit "language") (JStr (lit "en")))).
  assert (∃ rest,
    (handle w request).2 =
      RequestJson
      :: ThreadsCreate
           (seed (or_else (o !! lit "language") (JStr (lit "en"))) (trim t))
      :: rest ∧ sessions_created rest = 0%nat) as (rest & Hlog & Hrest).
  { rewrite handle_configured by done.
    rewrite (read_request_object request o t []) by done.
    apply nonempty_true in Hne. rewrite Hne. cbn [app].
    rewrite pipeline_run. cbv zeta.
    destruct (threads_create w _) as [e|th]; [by eexists|].
    destruct (runs_createAndPoll w _ _) as [e|run]; [by eexists|].
    destruct (bool_decide _); [|by eexists].
    destruct (read_assistant w _ _) as [ans log1] eqn:Hra.
    apply read_assistant_log in Hra.
    destruct ans as [e|[early|[nm vs]]];
      [| |destruct (strict_eq_str _ (lit "notes"));
          [|destruct (speech_create w vs)]];
      destruct Hra as [->|[raw ->]]; by eexists. }
  exists rest. rewrite Hlog. split_and!.
  - done.
  - unfold sessions_created in *. cbn. by rewrite Hrest.
  - intros Hl. by rewrite Hl.
  - intros Hl. by apply languageInstruction_other, language_default_not_sv.
Qed.

(** Claim C4, as amended.  When both configuration secrets are set, every
    request whose transcript is empty or only whitespace, whatever its
    other fields, is answered with status 400 and the error "Transcript is
    empty", and the body is read but no remote call is made. *)
Theorem blank_transcript_rejected (w : World) (o : gmap jsstring json)
    (s : jsstring) :
  is_set (OPENAI_API_KEY w) = true →
  is_set (OPENAI_ASSISTANT_ID w) = true →
  o !! lit "transcript" = Some (JStr s) →
  Forall (λ c, is_whitespace c = true) s →
  handle w {| request_json := inr (JObj o) |} =
    (inr (error_response (lit "Transcript is empty") 400), [RequestJson]) ∧
  status (error_response (lit "Transcript is empty") 400) = 400%nat ∧
  field (body (error_response (lit "Transcript is empty") 400)) "error"
    = Some (JStr (lit "Transcript is empty")).
Proof.
  intros Hk Ha Ht Hs. split_and!; [|reflexivity|apply error_field].
  unfold handle, POST. rewrite Hk, Ha. cbn [negb].
  cbv [mbind Eff_bind].
  rewrite (read_request_object _ o s) by done.
  by rewrite (trim_blank s Hs).
Qed.

(** Claim C6.  When the run that the handler polled ended as [failed],
    [cancelled] or [expired], the response has status 500 and the error
    "Run did not complete: " followed by the status, and the poll is the
    last thing the handler did: no message is listed, nothing is parsed
    and no speech is synthesised. *)
Theorem failed_run_is_upstream_error (w : World) (request : Request)
    out log (thread assistant_id format : jsstring) (st : RunStatus) :
  handle w request = (out, log) →
  RunsCreateAndPoll thread assistant_id format ∈ log →
  runs_createAndPoll w thread assistant_id = inr {| run_status := st |} →
  st = failed ∨ st = cancelled ∨ st = expired →
  ∃ resp,
    out = inr resp ∧
    resp = error_response
             (lit "Run did not complete: " ++ status_text st) 500 ∧
    status resp = 500%nat ∧
    body resp =
      obj [("error", JStr (lit "Run did not complete: " ++ status_text st))] ∧
    field (body resp) "error"
      = Some (JStr (lit "Run did not complete: " ++ status_text st)) ∧
    status_text st =
      match st with
      | failed => lit "failed"
      | cancelled => lit "cancelled"
      | _ => lit "expired"
      end ∧
    ∃ messages,
      log = [RequestJson; ThreadsCreate messages;
             RunsCreateAndPoll thread assistant_id format].
Proof.
  intros H Hin Hrun Hst.
  apply handle_inv in H
    as [->|[->|(o & s & r & log' & _ & _ & _ & Hp & Hr)]];
    [by in_log Hin..|].
  assert (RunsCreateAndPoll thread assistant_id format ∈ log') as Hin'.
  { destruct r as [err|resp]; destruct Hr as [_ ->]; [|done]. by in_log Hin. }
  destruct (pipeline_poll _ _ _ _ _ _ _ _ _ _ _ Hp Hin')
    as [Hin0|(th & Hth & -> & -> & ->)]; [by in_log Hin0|].
  rewrite pipeline_run in Hp. cbv zeta in Hp. rewrite Hth, Hrun in Hp.
  cbn [run_status] in Hp.
  assert (bool_decide (st = completed) = false) as Hnc.
  { apply bool_decide_eq_false. by destruct Hst as [->|[->| ->]]. }
  rewrite Hnc in Hp. simplify_eq. destruct Hr as [-> ->].
  eexists. split_and!; [reflexivity..|apply error_field| |by eexists].
  by destruct Hst as [->|[->| ->]].
Qed.

(** Claim C7.  When [JSON.parse] fails on the assistant's text, the
    response has status 500 and holds, next to the error message, the
    field [raw] with that text. *)
Theorem undecodable_answer_carries_raw (w : World) (request : Request)
    out log (raw : jsstring) :
  handle w request = (out, log) →
  JsonParse raw ∈ log →
  JSON_parse w raw = None →
  ∃ resp,
    out = inr resp ∧ status resp = 500%nat ∧
    body resp = obj [("error", JStr (lit "Failed to parse JSON from assistant"));
                     ("raw", JStr raw)] ∧
    field (body resp) "error"
      = Some (JStr (lit "Failed to parse JSON from assistant")) ∧
    field (body resp) "raw" = Some (JStr raw).
Proof.
  intros H Hin Hraw.
  apply handle_inv in H
    as [->|[->|(o & s & r & log' & _ & _ & _ & Hp & Hr)]];
    [by in_log Hin..|].
  rewrite pipeline_run in Hp. cbv zeta in Hp.
  destruct (threads_create w _) as [e|th];
    [simplify_eq; destruct Hr as [_ ->]; by in_log Hin|].
  destruct (runs_createAndPoll w _ _) as [e|run];
    [simplify_eq; destruct Hr as [_ ->]; by in_log Hin|].
  destruct (bool_decide _);
    [|simplify_eq; destruct Hr as [_ ->]; by in_log Hin].
  destruct (read_assistant w _ _) as [ans log1] eqn:Hra.
  assert (JsonParse raw ∈ log1) as Hin1.
  { destruct ans as [e|[early|[nm vs]]]; simplify_eq.
    - destruct Hr as [_ ->]. by in_log Hin.
    - by destruct Hr as [_ ->].
    - destruct (strict_eq_str _ _); simplify_eq; [by destruct Hr as [_ ->]|].
      destruct (speech_create w vs); simplify_eq; destruct Hr as [_ ->];
        by in_log Hin. }
  apply read_assistant_inv in Hra
    as [(e & _ & _ & ->)|(msgs & _ & [(_ & _ & ->)|
         [(m & p & parts & _ & _ & _ & _ & ->)|
          (m & raw' & parts & _ & _ & -> & Hans)]])]; try by in_log Hin1.
  in_log Hin1. rewrite Hraw in Hans. subst ans. simplify_eq.
  destruct Hr as [-> ->]. eexists. split; [done|].
  cbn [status body NextResponse_json default].
  split_and!; try done; apply raw_fields.
Qed.

(** Claim C10, on the route as it is served.  When a configuration secret
    is unset or empty and the module has loaded, every request, whatever
    its body, is answered with status 500 and the error naming the secret
    (the credential first), and nothing has been done before: the body has
    not been read.  When the credential is unset altogether the module does
    not load: the constructor of the client throws at line 6, the guard of
    line 19 is never reached and the handler answers no request. *)
Theorem config_error_first (w : World) (request : Request) :
  is_set (OPENAI_API_KEY w) && is_set (OPENAI_ASSISTANT_ID w) = false →
  match OPENAI_API_KEY w with
  | None => serve w request = LoadFailed
  | Some _ =>
      ∃ resp msg,
        serve w request = Handled (inr resp) [] ∧
        msg = (if is_set (OPENAI_API_KEY w)
               then lit "OPENAI_ASSISTANT_ID is not set"
               else lit "OPENAI_API_KEY is not set") ∧
        status resp = 500%nat ∧
        body resp = obj [("error", JStr msg)] ∧
        field (body resp) "error" = Some (JStr msg)
  end.
Proof.
  intros H. unfold serve, client_built.
  destruct (OPENAI_API_KEY w) as [k|] eqn:Hk; [|done].
  unfold handle, POST. rewrite Hk.
  destruct (is_set (Some k)); cbn [negb andb] in *.
  - rewrite H. cbn [negb fst snd].
    eexists _, _. split_and!; [reflexivity..|apply error_field].
  - cbn [fst snd].
    eexists _, _. split_and!; [reflexivity..|apply error_field].
Qed.

(** ** The theorems at the samples *)

Import Samples.

Lemma run_pair (w : World) (request : Request) :
  handle w request = ((handle w request).1, (handle w request).2).
Proof. by destruct (handle w request). Qed.

Lemma config_error_first_witness :
  serve (unconfigured good_world) blank_request = LoadFailed ∧
  (∃ resp,
     serve (without_assistant good_world) bad_json_request
       = Handled (inr resp) [] ∧
     status resp = 500%nat ∧
     field (body resp) "error"
       = Some (JStr (lit "OPENAI_ASSISTANT_ID is not set"))) ∧
  (∃ resp,
     serve (with_empty_key good_world) blank_request
       = Handled (inr resp) [] ∧
     status resp = 500%nat ∧
     field (body resp) "error"
       = Some (JStr (lit "OPENAI_API_KEY is not set"))).
Proof.
  split_and!.
  - exact (config_error_first (unconfigured good_world) blank_request
             eq_refl).
  - destruct (config_error_first (without_assistant good_world)
                bad_json_request eq_refl)
      as (resp & msg & Hs & Hm & Hst & _ & Hf).
    exists resp. rewrite Hm in Hf.
    split_and!; [exact Hs|exact Hst|exact Hf].
  - destruct (config_error_first (with_empty_key good_world)
                blank_request eq_refl)
      as (resp & msg & Hs & Hm & Hst & _ & Hf).
    exists resp. rewrite Hm in Hf.
    split_and!; [exact Hs|exact Hst|exact Hf].
Defined.

(** Claim C4 as first stated fails where a secret is missing: run on a
    blank transcript without the credential, [POST] gives the
    configuration error, and so does the route as served without the
    assistant's identifier; neither answer is the 400. *)
Lemma blank_transcript_not_400_unconfigured :
  ((handle (unconfigured good_world) blank_request).1
     = inr (error_response (lit "OPENAI_API_KEY is not set") 500) ∧
   (handle (unconfigured good_world) blank_request).1
     ≠ inr (error_response (lit "Transcript is empty") 400)) ∧
  (serve (without_assistant good_world) blank_request
     = Handled
         (inr (error_response (lit "OPENAI_ASSISTANT_ID is not set") 500))
         [] ∧
   status (error_response (lit "OPENAI_ASSISTANT_ID is not set") 500)
     = 500%nat ∧
   (handle (without_assistant good_world) blank_request).1
     ≠ inr (error_response (lit "Transcript is empty") 400)).
Proof.
  split; (split_and!; try reflexivity; intros H; by vm_compute in H).
Qed.

Lemma blank_transcript_rejected_witness :
  handle good_world blank_request =
    (inr (error_response (lit "Transcript is empty") 400), [RequestJson]) ∧
  status (error_response (lit "Transcript is empty") 400) = 400%nat ∧
  field (body (error_response (lit "Transcript is empty") 400)) "error"
    = Some (JStr (lit "Transcript is empty")).
Proof.
  apply (blank_transcript_rejected good_world _ (lit "   "));
    [reflexivity|reflexivity|by vm_compute|].
  vm_compute. by repeat constructor.
Defined.

Lemma recap_audio_fields_witness :
  (handle good_world audio_request).1 = inr audio_response ∧
  field (body audio_response) "audioBase64" = Some (JStr (lit "TWFu")) ∧
  field (body audio_response) "mimeType" = Some (JStr (lit "audio/mpeg")).
Proof.
  split; [by vm_compute|].
  destruct (recap_audio_fields good_world audio_request
              (obj [("transcript", JStr (lit "Alice: let us ship Friday."));
                    ("mode", JStr (lit "notes+audio"));
                    ("language", JStr (lit "sv"))])
              audio_response (handle good_world audio_request).2)
    as (_ & Haudio & _);
    [by vm_compute|reflexivity|reflexivity|].
  destruct Haudio as (script & buffer & _ & Hsp & Ha & Hm);
    [by vm_compute|].
  split; [|exact Hm]. rewrite Ha. vm_compute in Hsp. by simplify_eq.
Defined.

Lemma failed_run_is_upstream_error_witness :
  ∃ resp,
    (handle failed_world audio_request).1 = inr resp ∧
    status resp = 500%nat ∧
    field (body resp) "error"
      = Some (JStr (lit "Run did not complete: " ++ lit "failed")) ∧
    ∃ messages,
      (handle failed_world audio_request).2 =
        [RequestJson; ThreadsCreate messages;
         RunsCreateAndPoll (lit "thread_1") (lit "asst_sample")
                           (lit "json_object")].
Proof.
  destruct (failed_run_is_upstream_error failed_world audio_request
              _ _ (lit "thread_1") (lit "asst_sample") (lit "json_object")
              failed (run_pair _ _))
    as (resp & Hout & _ & Hst & _ & Hf & _ & Hlog).
  - apply list_elem_of_lookup. by exists 2%nat.
  - reflexivity.
  - by left.
  - exists resp. split_and!; [exact Hout|exact Hst|exact Hf|exact Hlog].
Defined.

Lemma undecodable_answer_carries_raw_witness :
  ∃ resp,
    (handle garbled_world notes_request).1 = inr resp ∧
    status resp = 500%nat ∧
    body resp =
      obj [("error", JStr (lit "Failed to parse JSON from assistant"));
           ("raw", JStr (lit "Sorry, no notes."))] ∧
    field (body resp) "error"
      = Some (JStr (lit "Failed to parse JSON from assistant")) ∧
    field (body resp) "raw" = Some (JStr (lit "Sorry, no notes.")).
Proof.
  apply (undecodable_answer_carries_raw garbled_world notes_request
           _ _ (lit "Sorry, no notes.") (run_pair _ _)).
  - apply list_elem_of_lookup. by exists 4%nat.
  - reflexivity.
Defined.

Lemma thread_seeded_with_trimmed_transcript_witness :
  ∃ directive rest,
    (handle good_world padded_request).2 =
      RequestJson
      :: ThreadsCreate
           [{| role := user;
               content := directive ++ LF ++ LF ++ lit "Transcript:"
                            ++ LF ++ LF ++ lit "hi" |}]
      :: rest ∧
    sessions_created (handle good_world padded_request).2 = 1%nat ∧
    (@None json = Some (JStr (lit "sv")) → directive = Swedish_instruction) ∧
    (@None json ≠ Some (JStr (lit "sv")) → directive = English_instruction).
Proof.
  destruct (thread_seeded_with_trimmed_transcript good_world padded_request
              (list_to_map [(lit "transcript", JStr (lit " hi "))])
              (lit " hi "))
    as (directive & rest & Hlog & Hone & Hsv & Hen);
    [reflexivity|reflexivity|reflexivity|by vm_compute|by vm_compute|].
  exists directive, rest. split_and!;
    [exact Hlog|exact Hone|exact Hsv|exact Hen].
Defined.

(** The message that seeds the thread holds ["hi"], not the request's
    [" hi "]. *)
Lemma padded_transcript_not_verbatim :
  ThreadsCreate
    [{| role := user;
        content := English_instruction ++ LF ++ LF ++ lit "Transcript:"
                     ++ LF ++ LF ++ lit "hi" |}]
    ∈ (handle good_world padded_request).2 ∧
  ThreadsCreate
    [{| role := user;
        content := English_instruction ++ LF ++ LF ++ lit "Transcript:"
                     ++ LF ++ LF ++ lit " hi " |}]
    ∉ (handle good_world padded_request).2.
Proof.
  split.
  - apply list_elem_of_lookup. by exists 1%nat.
  - intros Hin. vm_compute in Hin. by in_log Hin.
Qed.

Lemma parser_succeeds_iff_witness :
  parser_succeeds good_world (lit "thread_1") ↔
  answer_accepted good_world answered.
Proof.
  by apply (proj1 (parser_succeeds_iff good_world (lit "thread_1") answered
                     eq_refl) []).
Defined.

(** The parser and the specification's condition disagree both ways: the
    empty object is accepted although it lacks [notes_markdown], and a
    well-formed message that is not the assistant's first is not looked
    at. *)
Lemma parser_condition_differs :
  (parser_succeeds empty_object_world (lit "thread_1") ∧
   ¬ spec_answer_condition empty_object_world
       [text_message assistant (lit "{}")]) ∧
  (spec_answer_condition late_answer_world late_answer ∧
   ¬ parser_succeeds late_answer_world (lit "thread_1")).
Proof.
  split_and!.
  - by eexists _, _, _.
  - intros (m & raw & o & Hin & _ & Hc & Hp & Hk).
    in_log Hin. cbn in Hc. simplify_eq. vm_compute in Hp. simplify_eq.
    by destruct Hk.
  - exists (text_message assistant answer_text), answer_text.
    eexists. split_and!; [|done|done|by vm_compute|].
    + apply list_elem_of_lookup. by exists 1%nat.
    + vm_compute. by eexists.
  - intros (nm & vs & log & H). by vm_compute in H.
Qed.

End RouteProofs.

(** * Properties of the page *)

Module PageProofs.
Import Page.

Local Open Scope nat_scope.

Ltac run_page :=
  cbv [handleGenerate base64ToBlob rendered set settle throw attempt
       try_catch mbind mret Eff_bind Eff_ret fst snd].

(** What one run of [handleGenerate] does to the history and to its
    stored copy. *)
Lemma handleGenerate_history (b : Browser) (s : State) :
  let s' := (handleGenerate b s).2 in
  match generated b s with
  | Some item =>
      history s' = take 20 (item :: history s) ∧
      localStorage s' = <[HISTORY_KEY := StoredHistory (history s')]>
                          (localStorage s)
  | None => history s' = history s ∧ localStorage s' = localStorage s
  end.
Proof.
  unfold generated. run_page. cbv zeta.
  destruct (nonempty (trim (transcript s))); cbn [negb]; [|done].
  destruct (fetch_recap b _) as [e|res]; [done|].
  destruct (ok res); cbn [negb]; [|by destruct (res_text res)].
  destruct (res_json res) as [e|data]; [done|].
  destruct (audioBase64 data) as [a|]; [|done].
  destruct (mimeType data) as [m|]; [|done].
  destruct (nonempty a && nonempty m); [|done].
  by destruct (atob b a).
Qed.

Lemma generated_short (b : Browser) (s : State) (item : HistoryItem) :
  generated b s = Some item → short item.
Proof.
  unfold generated, short. intros H. repeat case_match; simplify_eq.
  cbn [notesSnippet]. unfold slice0. rewrite length_take. lia.
Qed.

Lemma take_app_take {A} (n : nat) (l h : list A) :
  take n (l ++ take n h) = take n (l ++ h).
Proof. rewrite !take_app, take_take. do 2 f_equal. lia. Qed.

Lemma generations_history (bs : list Browser) (s : State) :
  let s' := generations bs s in
  match recorded bs s with
  | [] => history s' = history s ∧
          localStorage s' !! HISTORY_KEY = localStorage s !! HISTORY_KEY
  | items =>
      history s' = take 20 (rev items ++ history s) ∧
      localStorage s' !! HISTORY_KEY = Some (StoredHistory (history s'))
  end.
Proof.
  revert s. induction bs as [|b bs IH]; intros s; [done|].
  cbn [generations recorded]. specialize (IH (handleGenerate b s).2).
  pose proof (handleGenerate_history b s) as Hb. cbv zeta in *.
  destruct (generated b s) as [item|]; cbn [option_list app].
  - destruct Hb as [Hh Hl].
    destruct (recorded bs _) as [|i items]; destruct IH as [-> ->].
    + rewrite Hl, Hh. by rewrite lookup_insert_eq.
    + split; [|done]. rewrite Hh.
      change (rev (item :: [] ++ i :: items))
        with (rev (i :: items) ++ [item]).
      rewrite <- (assoc_L (++)). apply take_app_take.
  - destruct Hb as [Hh Hl]. rewrite Hh, Hl in IH. 
    by destruct (recorded bs _).
Qed.

Lemma recorded_short (bs : list Browser) (s : State) :
  Forall short (recorded bs s).
Proof.
  revert s. induction bs as [|b bs IH]; intros s; [constructor|].
  cbn [recorded]. apply Forall_app. split; [|apply IH].
  destruct (generated b s) as [item|] eqn:Hg; [|constructor].
  apply Forall_singleton. by eapply generated_short.
Qed.

(** Claim C5.  Along any sequence of runs of [handleGenerate]: once an
    entry has been recorded the history holds at most 20 entries, the
    newest first, and equals its stored copy; a history of at most 20
    entries stays so; after more than 20 recorded entries the history is
    exactly the 20 most recent ones, newest first; every recorded snippet
    has at most 120 characters, and a history of such snippets stays
    one. *)
Theorem history_bounded_newest_first (bs : list Browser) (s : State) :
  let s' := generations bs s in
  (recorded bs s ≠ [] → length (history s') ≤ 20) ∧
  (length (history s) ≤ 20 → length (history s') ≤ 20) ∧
  (recorded bs s ≠ [] →
     history s' = take 20 (rev (recorded bs s) ++ history s) ∧
     localStorage s' !! HISTORY_KEY = Some (StoredHistory (history s'))) ∧
  (20 < length (recorded bs s) →
     history s' = take 20 (rev (recorded bs s)) ∧
     length (history s') = 20) ∧
  Forall short (recorded bs s) ∧
  (Forall short (history s) → Forall short (history s')).
Proof.
  pose proof (generations_history bs s) as H.
  pose proof (recorded_short bs s) as Hs. cbv zeta in *.
  destruct (recorded bs s) as [|i items] eqn:Hr.
  - destruct H as [-> _]. cbn [length]. split_and!; try done; lia.
  - destruct H as [Hh Hl]. rewrite Hh.
    split_and!; try done.
    + intros _. rewrite length_take. lia.
    + intros _. rewrite length_take. lia.
    + intros _. split; [done|]. by rewrite <- Hh.
    + intros Hn. rewrite take_app_le by (rewrite length_rev; lia).
      split; [done|]. rewrite length_take, length_rev. lia.
    + intros Hold. apply Forall_take, Forall_app. split; [|done].
      by apply Forall_rev.
Qed.

(** Claim C9.  [restoreFromHistory] shows the stored snippet followed by
    the marker " ..." when the snippet has exactly 120 characters, and the
    snippet alone otherwise, in particular whenever it is shorter; the
    marker is there if and only if the length is 120. *)
Theorem restore_marks_full_snippets (item : HistoryItem) (s : State) :
  let restored := notes (restoreFromHistory item s) in
  (length (notesSnippet item) = 120 →
     restored = notesSnippet item ++ lit " ...") ∧
  (length (notesSnippet item) < 120 → restored = notesSnippet item) ∧
  (length (notesSnippet item) ≠ 120 → restored = notesSnippet item) ∧
  (restored = notesSnippet item ++ lit " ..." ↔
     length (notesSnippet item) = 120).
Proof.
  cbv zeta. unfold restoreFromHistory. cbn [notes setNotes].
  destruct (Nat.eqb_spec (length (notesSnippet item)) 120) as [Heq|Hne].
  - split_and!; [done|intros; lia|done|done].
  - rewrite app_nil_r. split_and!; try done. split; [|done].
    intros H. apply (f_equal length) in H. rewrite length_app in H.
    change (length (lit " ...")) with 4 in H. lia.
Qed.

(** Claim C8.  With no notes, [handleDownloadZip] hands nothing to the
    browser and shows the error "There are no notes to download yet.",
    leaving the rest of the page as it was.  With notes, the archive
    holds [meeting_notes.md] with the notes, holds [meeting_recap.mp3] with
    the audio blob exactly when there is one, and holds no other file: with
    no audio it is the notes file alone. *)
Theorem bundle_contents (s : State) :
  (notes s = [] →
     handleDownloadZip s =
       (setError (Some (lit "There are no notes to download yet.")) s,
        None) ∧
     ∃ s', handleDownloadZip s = (s', None) ∧
           error s' = Some (lit "There are no notes to download yet.") ∧
           notes s' = [] ∧ audioBlob s' = audioBlob s ∧
           audioUrl s' = audioUrl s ∧ transcript s' = transcript s ∧
           history s' = history s ∧ localStorage s' = localStorage s) ∧
  (notes s ≠ [] →
     ∃ d, handleDownloadZip s = (s, Some d) ∧
          download d = lit "meeting_recap_bundle.zip" ∧
          archive d !! lit "meeting_notes.md" = Some (TextEntry (notes s)) ∧
          archive d !! lit "meeting_recap.mp3" = BlobEntry <$> audioBlob s ∧
          (∀ name, is_Some (archive d !! name) →
                   name = lit "meeting_notes.md" ∨
                   name = lit "meeting_recap.mp3") ∧
          (audioBlob s = None →
             archive d = {[ lit "meeting_notes.md" := TextEntry (notes s) ]})).
Proof.
  unfold handleDownloadZip, zip_file. split.
  - intros Hn. rewrite Hn. cbn [nonempty negb]. split; [done|].
    eexists. split; [reflexivity|]. cbn. by rewrite Hn.
  - intros Hn. apply JsFacts.nonempty_true in Hn. rewrite Hn. cbn [negb].
    eexists. split; [done|]. cbn [download archive].
    assert (lit "meeting_recap.mp3" ≠ lit "meeting_notes.md") as Hne
      by (by vm_compute).
    destruct (audioBlob s) as [blob|]; cbn [fmap option_fmap option_map].
    + split_and!; try done;
        try by rewrite ?(lookup_insert_ne _ _ _ _ Hne), lookup_insert_eq.
      intros name [e He].
      destruct (decide (name = lit "meeting_recap.mp3")); [by right|].
      destruct (decide (name = lit "meeting_notes.md")); [by left|].
      by rewrite !lookup_insert_ne, lookup_empty in He.
    + split_and!; try done;
        try by rewrite ?(lookup_insert_ne _ _ _ _ (not_eq_sym Hne)),
                 ?lookup_insert_eq, ?lookup_empty.
      intros name [e He].
      destruct (decide (name = lit "meeting_notes.md")); [by left|].
      by rewrite lookup_insert_ne, lookup_empty in He.
Qed.

(** ** The theorems at the samples *)

Import Samples.

Lemma history_bounded_newest_first_witness :
  history (generations twenty_one_answers ready_page)
    = take 20 (rev (recorded twenty_one_answers ready_page)) ∧
  length (history (generations twenty_one_answers ready_page)) = 20 ∧
  Forall short (history (generations twenty_one_answers ready_page)).
Proof.
  destruct (history_bounded_newest_first twenty_one_answers ready_page)
    as (_ & _ & _ & Hnewest & _ & Hshort).
  destruct Hnewest as [Hh Hlen]; [vm_compute; lia|].
  split_and!; [exact Hh|exact Hlen|]. apply Hshort. constructor.
Defined.

Lemma restore_marks_full_snippets_witness :
  notes (restoreFromHistory full_item initial_page) =
    full_snippet ++ lit " ...".
Proof.
  apply (proj1 (restore_marks_full_snippets full_item initial_page)).
  reflexivity.
Defined.

Lemma bundle_contents_witness :
  (∃ s', handleDownloadZip initial_page = (s', None) ∧
         error s' = Some (lit "There are no notes to download yet.")) ∧
  ∃ d, handleDownloadZip (setNotes (lit "# Notes") initial_page) =
         (setNotes (lit "# Notes") initial_page, Some d) ∧
       archive d = {[ lit "meeting_notes.md" := TextEntry (lit "# Notes") ]}.
Proof.
  split.
  - destruct (proj1 (bundle_contents initial_page) eq_refl)
      as (_ & s' & Hs' & He & _).
    exists s'. split; [exact Hs'|exact He].
  - destruct (proj2 (bundle_contents (setNotes (lit "# Notes") initial_page)))
      as (d & Hd & _ & _ & _ & _ & Honly); [by vm_compute|].
    exists d. split; [exact Hd|]. by apply Honly.
Defined.

End PageProofs.

(** * More properties of the route *)

Module RouteExtras.
Import Route JsFacts RouteProofs.

(** ** The request *)

(** X1: a body that cannot be decoded is answered 400 before anything
    else is done. *)
Theorem invalid_json_rejected (w : World) (request : Request)
    (e : JsError) :
  is_set (OPENAI_API_KEY w) = true →
  is_set (OPENAI_ASSISTANT_ID w) = true →
  request_json request = inl e →
  handle w request =
    (inr (error_response (lit "Invalid JSON") 400), [RequestJson]) ∧
  status (error_response (lit "Invalid JSON") 400) = 400%nat ∧
  field (body (error_response (lit "Invalid JSON") 400)) "error"
    = Some (JStr (lit "Invalid JSON")).
Proof.
  intros Hk Ha Hb. split_and!; [|reflexivity|apply error_field].
  rewrite handle_configured by done.
  unfold read_request. run_eff. by rewrite Hb.
Qed.

(** X2: a body other than [null] whose transcript is missing or falsy
    ([null], [false], zero, the empty string) is answered like an empty
    one. *)
Theorem falsy_transcript_rejected (w : World) (request : Request)
    (bd : json) :
  is_set (OPENAI_API_KEY w) = true →
  is_set (OPENAI_ASSISTANT_ID w) = true →
  request_json request = inr bd →
  bd ≠ JNull →
  (∀ v, field bd "transcript" = Some v → truthy v = false) →
  handle w request =
    (inr (error_response (lit "Transcript is empty") 400), [RequestJson]) ∧
  status (error_response (lit "Transcript is empty") 400) = 400%nat ∧
  field (body (error_response (lit "Transcript is empty") 400)) "error"
    = Some (JStr (lit "Transcript is empty")).
Proof.
  intros Hk Ha Hb Hnull Hv. split_and!; [|reflexivity|apply error_field].
  rewrite handle_configured by done.
  unfold read_request. run_eff. rewrite Hb.
  destruct bd as [| | | | |o]; try done.
  cbn [field] in Hv. unfold or_else.
  destruct (o !! lit "transcript") as [v|]; [|done].
  by rewrite (Hv v eq_refl).
Qed.

(** Reading the request throws on the unreadable bodies and on no
    other. *)
Lemma read_request_throws (request : Request) (log : list Event) :
  (∃ e log', read_request request log = (inl e, log')) ↔
  ∃ bd, request_json request = inr bd ∧ unreadable bd.
Proof.
  unfold read_request, unreadable. run_eff. split.
  - intros (e & log' & H).
    destruct (request_json request) as [e'|bd]; [done|].
    exists bd. split; [done|].
    destruct bd as [| | | | |o]; try done; [by left|]. right.
    cbn [field]. unfold or_else in H.
    destruct (o !! lit "transcript") as [v|]; [|done].
    exists v. destruct (truthy v) eqn:Hv; [|done].
    split_and!; try done. intros s ->.
    by destruct (nonempty (trim s)).
  - intros (bd & -> & [->|(v & Hf & Hv & Hs)]); [by eexists _, _|].
    destruct bd as [| | | | |o]; try done. cbn [field] in Hf.
    unfold or_else. rewrite Hf, Hv.
    destruct v; try by eexists _, _. by destruct (Hs s).
Qed.

(** X3: the handler throws exactly when it is configured and the body is
    unreadable, and then it has done nothing but read the body: whatever
    is thrown after that is caught. *)
Theorem handler_throws_iff (w : World) (request : Request) :
  ((∃ e, handle w request = (inl e, [RequestJson])) ↔
   is_set (OPENAI_API_KEY w) = true ∧
   is_set (OPENAI_ASSISTANT_ID w) = true ∧
   ∃ bd, request_json request = inr bd ∧ unreadable bd) ∧
  (∀ e log, handle w request = (inl e, log) → log = [RequestJson]).
Proof.
  assert (∀ e log, handle w request = (inl e, log) →
    log = [RequestJson] ∧
    is_set (OPENAI_API_KEY w) = true ∧
    is_set (OPENAI_ASSISTANT_ID w) = true ∧
    ∃ bd, request_json request = inr bd ∧ unreadable bd) as Hinv.
  { intros e log H.
    destruct (is_set (OPENAI_API_KEY w) && is_set (OPENAI_ASSISTANT_ID w))
      eqn:Hc.
    - apply andb_true_iff in Hc as [Hk Ha].
      rewrite handle_configured in H by done.
      destruct (read_request request []) as [v log'] eqn:Hr.
      destruct (read_request_inv _ _ _ _ Hr) as [-> _].
      destruct v as [e'|[early|[[t m] l]]]; [|done|].
      + simplify_eq. split_and!; try done.
        apply (read_request_throws request []). by eexists _, _.
      + by destruct (pipeline w _ t m l _) as [[err|resp] log''].
    - destruct (handle_unconfigured w request Hc) as [msg Hu]. congruence. }
  split; [split|].
  - intros [e H]. by apply Hinv in H as (_ & ? & ? & ?).
  - intros (Hk & Ha & Hbd).
    apply (read_request_throws request []) in Hbd as (e & log & Hr).
    destruct (read_request_inv _ _ _ _ Hr) as [-> _].
    exists e. rewrite handle_configured by done. by rewrite Hr.
  - intros e log H. by apply Hinv in H as [-> _].
Qed.

(** ** The order of the calls *)

(** The three ways a run of the handler can go, with its outcome. *)
Lemma handle_cases (w : World) (request : Request) out log :
  handle w request = (out, log) →
  (log = [] ∧ ∃ msg, out = inr (error_response msg 500)) ∨
  (log = [RequestJson] ∧
   ((∃ e, out = inl e) ∨ ∃ msg, out = inr (error_response msg 400))) ∨
  ∃ o s r log',
    request_json request = inr (JObj o) ∧
    o !! lit "transcript" = Some (JStr s) ∧
    nonempty (trim s) = true ∧
    pipeline w (default [] (OPENAI_ASSISTANT_ID w)) (trim s)
      (or_else (o !! lit "mode") (JStr (lit "notes")))
      (or_else (o !! lit "language") (JStr (lit "en")))
      [RequestJson] = (r, log') ∧
    match r with
    | inl err =>
        out = inr (error_response (error_text err) 500) ∧
        log = log' ++ [ConsoleError err]
    | inr resp => out = inr resp ∧ log = log'
    end.
Proof.
  intros H.
  destruct (is_set (OPENAI_API_KEY w) && is_set (OPENAI_ASSISTANT_ID w))
    eqn:Hc.
  - apply andb_true_iff in Hc as [Hk Ha].
    rewrite handle_configured in H by done.
    destruct (read_request request []) as [v log1] eqn:Hr.
    apply read_request_inv in Hr as [-> Hv].
    destruct v as [e|[early|[[t m] l]]].
    + right; left. simplify_eq. eauto.
    + right; left. simplify_eq. split; [done|]. right.
      destruct Hv as [->| ->]; by eexists.
    + destruct Hv as (o & s & Ho & Ht & -> & Hne & -> & ->).
      right; right. cbn [app] in H.
      destruct (pipeline w _ _ _ _ _) as [r log'] eqn:Hp.
      exists o, s, r, log'. by destruct r; simplify_eq.
  - destruct (handle_unconfigured w request Hc) as [msg Hu].
    left. rewrite Hu in H. simplify_eq. eauto.
Qed.

(** The pipeline runs its stages in order, from the thread on, and answers
    200 only after the assistant's text was parsed. *)
Lemma pipeline_stages (w : World) (ASSISTANT_ID transcript : jsstring)
    (mode language : json) (log log' : list Event) r :
  pipeline w ASSISTANT_ID transcript mode language log = (r, log') →
  ∃ evs n,
    log' = log ++ evs ∧ map stage evs = seq 1 n ∧ (1 ≤ n ≤ 5)%nat ∧
    ∀ resp, r = inr resp →
      status resp = 500%nat ∨ (status resp = 200%nat ∧ (4 ≤ n)%nat).
Proof.
  rewrite pipeline_run. cbv zeta. intros H.
  destruct (threads_create w _) as [e|th].
  { simplify_eq. eexists _, 1%nat. split_and!; try done; lia. }
  destruct (runs_createAndPoll w _ _) as [e|run].
  { simplify_eq. eexists _, 2%nat. split_and!; try done; lia. }
  destruct (bool_decide _).
  2:{ simplify_eq. eexists _, 2%nat. split_and!; try done; try lia.
      intros resp [= <-]. by left. }
  destruct (read_assistant w _ _) as [ans log1] eqn:Hra.
  apply read_assistant_inv in Hra
    as [(e & _ & -> & ->)|(msgs & _ & [(_ & -> & ->)|
         [(m & p & parts & _ & _ & _ & -> & ->)|
          (m & raw & parts & _ & _ & -> & Hans)]])].
  - simplify_eq. rewrite <- (assoc_L (++)).
    eexists _, 3%nat. split_and!; try done; lia.
  - simplify_eq. rewrite <- (assoc_L (++)).
    eexists _, 3%nat. split_and!; try done; try lia.
    intros resp [= <-]. by left.
  - simplify_eq. rewrite <- (assoc_L (++)).
    eexists _, 3%nat. split_and!; try done; try lia.
    intros resp [= <-]. by left.
  - assert (ans = inl (TypeError (null_property_message "notes_markdown")) ∨
            (∃ resp, ans = inr (inl resp) ∧ status resp = 500%nat) ∨
            ∃ nm vs, ans = inr (inr (nm, vs))) as Hcases.
    { destruct (JSON_parse w raw) as [[]|]; subst ans; eauto 6. }
    rewrite <- (assoc_L (++)) in H.
    destruct Hcases as [->|[(resp & -> & Hst)|(nm & vs & ->)]].
    + simplify_eq. eexists _, 4%nat. split_and!; try done; lia.
    + simplify_eq. eexists _, 4%nat. split_and!; try done; try lia.
      intros resp' [= <-]. by left.
    + destruct (strict_eq_str mode _).
      * simplify_eq. eexists _, 4%nat. split_and!; try done; try lia.
        intros resp [= <-]. right. split; [done|lia].
      * destruct (speech_create w vs); simplify_eq;
          rewrite <- (assoc_L (++)); eexists _, 5%nat;
          split_and!; try done; try lia.
        intros resp [= <-]. right. split; [done|lia].
Qed.

(** X4: every run performs its effects in the order of the source, each at
    most once and none skipped: the body, the thread, the run, the
    messages, the parse, the speech; [console.error] comes last if at
    all. *)
Theorem calls_in_order (w : World) (request : Request) out log :
  handle w request = (out, log) →
  ∃ n, (n ≤ 6)%nat ∧
       (map stage log = seq 0 n ∨ map stage log = seq 0 n ++ [6%nat]).
Proof.
  intros H. apply handle_cases in H
    as [[-> _]|[[-> _]|(o & s & r & log' & _ & _ & _ & Hp & Hr)]].
  - exists 0%nat. split; [lia|by left].
  - exists 1%nat. split; [lia|by left].
  - apply pipeline_stages in Hp as (evs & n & -> & Hevs & Hn & _).
    exists (S n). split; [lia|].
    destruct r as [err|resp]; destruct Hr as [_ ->].
    + right. rewrite !map_app. cbn. by rewrite Hevs.
    + left. cbn. by rewrite Hevs.
Qed.

(** X5: a response has one of three statuses.  A 400 is sent before any remote
    call; a 200 only after the thread, the run, the messages and the
    parse, and never after [console.error]. *)
Theorem status_and_progress (w : World) (request : Request)
    (resp : Response) (log : list Event) :
  handle w request = (inr resp, log) →
  (status resp = 400%nat ∧ log = [RequestJson]) ∨
  status resp = 500%nat ∨
  (status resp = 200%nat ∧
   (map stage log = seq 0 5 ∨ map stage log = seq 0 6)).
Proof.
  intros H. apply handle_cases in H
    as [[-> [msg Hm]]|[[-> [[e He]|[msg Hm]]]|
        (o & s & r & log' & _ & _ & _ & Hp & Hr)]]; simplify_eq.
  - right; by left.
  - by left.
  - apply pipeline_stages in Hp as (evs & n & -> & Hevs & Hn & Hst).
    destruct r as [err|resp']; destruct Hr as [Hout ->].
    + injection Hout as ->. right; by left.
    + injection Hout as ->.
      destruct (Hst resp' eq_refl) as [?|[? ?]]; [right; by left|].
      right; right. split; [done|]. cbn. rewrite Hevs.
      assert (n = 4 ∨ n = 5)%nat as [-> | ->] by lia; [by left|by right].
Qed.

(** ** Failures of the remote service *)

Lemma error_has_no_notes (msg : jsstring) (st : nat) :
  field (body (error_response msg st)) "notes_markdown" = None.
Proof. by vm_compute. Qed.

(** X6: when the thread, the run, the messages or the speech cannot be had,
    the request ends there: the error is written to the console and the
    response is a 500 with the error's text and without notes, also when
    the notes were already parsed. *)
Theorem remote_failure_ends_request (w : World) (request : Request)
    out log (ev : Event) (e : JsError) :
  handle w request = (out, log) →
  ev ∈ log →
  failure w ev = Some e →
  out = inr (error_response (error_text e) 500) ∧
  (∃ log', log = log' ++ [ev; ConsoleError e]) ∧
  field (body (error_response (error_text e) 500)) "notes_markdown" = None ∧
  status (error_response (error_text e) 500) = 500%nat ∧
  field (body (error_response (error_text e) 500)) "error"
    = Some (JStr (error_text e)).
Proof.
  intros H Hin Hf.
  split_and!;
    [| |apply error_has_no_notes|reflexivity|apply error_field];
  apply handle_cases in H
    as [[-> _]|[[-> _]|(o & s & r & log' & _ & _ & _ & Hp & Hr)]];
    try (by in_log Hin);
  rewrite pipeline_run in Hp; cbv zeta in Hp.
  all: destruct (threads_create w _) as [e1|th] eqn:H1;
    [simplify_eq; destruct Hr as [-> ->]; in_log Hin; cbn in Hf;
     rewrite ?H1 in Hf; simplify_eq; first [done|by eexists [_]]|].
  all: destruct (runs_createAndPoll w _ _) as [e2|run] eqn:H2;
    [simplify_eq; destruct Hr as [-> ->]; in_log Hin; cbn in Hf;
     rewrite ?H1, ?H2 in Hf; simplify_eq; first [done|by eexists [_; _]]|].
  all: destruct (bool_decide _);
    [|simplify_eq; destruct Hr as [-> ->]; in_log Hin; cbn in Hf;
      rewrite ?H1, ?H2 in Hf; by simplify_eq].
  all: destruct (read_assistant w _ _) as [ans log1] eqn:Hra.
  all: apply read_assistant_inv in Hra
    as [(e3 & H3 & -> & ->)|(msgs & H3 & [(_ & -> & ->)|
         [(m & p & parts & _ & _ & _ & -> & ->)|
          (m & raw & parts & _ & _ & -> & Hans)]])].
  all: try (simplify_eq; destruct Hr as [-> ->]; in_log Hin; cbn in Hf;
            rewrite ?H1, ?H2, ?H3 in Hf; simplify_eq;
            first [done|by eexists [_; _; _]]).
  all: assert (ans = inl (TypeError (null_property_message "notes_markdown")) ∨
            (∃ resp, ans = inr (inl resp)) ∨
            ∃ nm vs, ans = inr (inr (nm, vs))) as Hcases
    by (destruct (JSON_parse w raw) as [[]|]; subst ans; eauto 6).
  all: destruct Hcases as [->|[(resp & ->)|(nm & vs & ->)]];
    try (simplify_eq; destruct Hr as [-> ->]; in_log Hin; cbn in Hf;
         rewrite ?H1, ?H2, ?H3 in Hf; by simplify_eq).
  all: destruct (strict_eq_str _ (lit "notes"));
    [simplify_eq; destruct Hr as [-> ->]; in_log Hin; cbn in Hf;
     rewrite ?H1, ?H2, ?H3 in Hf; by simplify_eq|].
  all: destruct (speech_create w vs) as [e4|buffer] eqn:H4;
    simplify_eq; destruct Hr as [-> ->]; in_log Hin; cbn in Hf;
    rewrite ?H1, ?H2, ?H3, ?H4 in Hf; simplify_eq;
    first [done|by eexists [_; _; _; _; _]].
Qed.

(** ** The whole trace of the pipeline *)

(** Every way the pipeline can go, with the answers of the world that lead
    there, the outcome and the log. *)
Lemma pipeline_trace (w : World) (ASSISTANT_ID transcript : jsstring)
    (mode language : json) (log log' : list Event) r :
  pipeline w ASSISTANT_ID transcript mode language log = (r, log') →
  let create := ThreadsCreate (seed language transcript) in
  (∃ e, threads_create w (seed language transcript) = inl e ∧
        r = inl e ∧ log' = log ++ [create]) ∨
  ∃ th, threads_create w (seed language transcript) = inr th ∧
  let poll := RunsCreateAndPoll (thread_id th) ASSISTANT_ID
                (lit "json_object") in
  (∃ e, runs_createAndPoll w (thread_id th) ASSISTANT_ID = inl e ∧
        r = inl e ∧ log' = log ++ [create; poll]) ∨
  ∃ run, runs_createAndPoll w (thread_id th) ASSISTANT_ID = inr run ∧
  ((run_status run ≠ completed ∧
   r = inr (error_response
              (lit "Run did not complete: " ++ status_text (run_status run))
              500) ∧
   log' = log ++ [create; poll]) ∨
  (run_status run = completed ∧
  let list := MessagesList (thread_id th) in
  (∃ e, messages_list w (thread_id th) = inl e ∧
        r = inl e ∧ log' = log ++ [create; poll; list]) ∨
  ∃ msgs, messages_list w (thread_id th) = inr msgs ∧
  ((∃ msg, r = inr (error_response msg 500) ∧
           log' = log ++ [create; poll; list]) ∨
  ∃ raw, let parse := JsonParse raw in
  match JSON_parse w raw with
  | None =>
      r = inr (NextResponse_json
                 (obj [("error",
                        JStr (lit "Failed to parse JSON from assistant"));
                       ("raw", JStr raw)]) (Some 500%nat)) ∧
      log' = log ++ [create; poll; list; parse]
  | Some JNull =>
      r = inl (TypeError (null_property_message "notes_markdown")) ∧
      log' = log ++ [create; poll; list; parse]
  | Some parsed =>
      let notes_markdown := nullish (field parsed "notes_markdown") (JStr []) in
      let voiceover_script :=
        nullish (field parsed "voiceover_script") (JStr []) in
      let speak := SpeechCreate (lit "gpt-4o-mini-tts") (lit "alloy")
                     voiceover_script in
      if strict_eq_str mode (lit "notes") then
        r = inr (NextResponse_json
                   (obj [("notes_markdown", notes_markdown);
                         ("audioBase64", JNull); ("mimeType", JNull)]) None) ∧
        log' = log ++ [create; poll; list; parse]
      else
        match speech_create w voiceover_script with
        | inl e => r = inl e ∧ log' = log ++ [create; poll; list; parse; speak]
        | inr buffer =>
            r = inr (NextResponse_json
                       (obj [("notes_markdown", notes_markdown);
                             ("audioBase64", JStr (toString_base64 buffer));
                             ("mimeType", JStr (lit "audio/mpeg"))]) None) ∧
            log' = log ++ [create; poll; list; parse; speak]
        end
  end))).
Proof.
  rewrite pipeline_run. cbv zeta. intros H.
  destruct (threads_create w _) as [e|th]; [left; simplify_eq; eauto|].
  right. exists th. split; [done|].
  destruct (runs_createAndPoll w _ _) as [e|run];
    [left; simplify_eq; eauto|].
  right. exists run. split; [done|].
  destruct (bool_decide _) eqn:Hst.
  2:{ left. apply bool_decide_eq_false in Hst. by simplify_eq. }
  right. apply bool_decide_eq_true in Hst. split; [done|].
  destruct (read_assistant w _ _) as [ans log1] eqn:Hra.
  apply read_assistant_inv in Hra
    as [(e & H3 & -> & ->)|(msgs & H3 & [(_ & -> & ->)|
         [(m & p & parts & _ & _ & _ & -> & ->)|
          (m & raw & parts & _ & _ & -> & Hans)]])];
    rewrite <- (assoc_L (++)) in H; cbn [app] in H.
  - left. simplify_eq. eauto.
  - right. exists msgs. split; [done|]. left. simplify_eq. eauto.
  - right. exists msgs. split; [done|]. left. simplify_eq. eauto.
  - right. exists msgs. split; [done|]. right. exists raw. cbv zeta.
    destruct (JSON_parse w raw) as [parsed|]; [|by simplify_eq].
    destruct parsed; subst ans; try by simplify_eq.
    all: destruct (strict_eq_str mode _); [by simplify_eq|].
    all: destruct (speech_create w _); simplify_eq;
      by rewrite <- (assoc_L (++)).
Qed.

(** Case analysis on a run of the pipeline, down to the parse. *)
Ltac trace Hp raw :=
  apply pipeline_trace in Hp; cbv zeta in Hp;
  destruct Hp as
    [(?e & ?H1 & -> & ->)|(?th & ?H1 &
      [(?e & ?H2 & -> & ->)|(?run & ?H2 &
        [(?Hst & -> & ->)|(?Hst &
          [(?e & ?H3 & -> & ->)|(?msgs & ?H3 &
            [(?msg & -> & ->)|(raw & Hp)])])])])].

Lemma strict_eq_str_true (v : json) (s : jsstring) :
  strict_eq_str v s = true ↔ v = JStr s.
Proof.
  unfold strict_eq_str. destruct v; try done.
  rewrite bool_decide_eq_true. split; congruence.
Qed.

(** ** What follows the parse *)

(** X7: speech is synthesised for every mode other than "notes", known or not,
    as soon as the assistant's answer is accepted, from the voiceover script
    or from the empty string when there is none; and for "notes" it never
    is. *)
Theorem synthesis_follows_mode (w : World) (request : Request) (bd : json)
    out log :
  handle w request = (out, log) →
  request_json request = inr bd →
  (mode_of bd = JStr (lit "notes") →
     ∀ model voice input, SpeechCreate model voice input ∉ log) ∧
  (mode_of bd ≠ JStr (lit "notes") →
     ∀ raw parsed,
       JsonParse raw ∈ log → JSON_parse w raw = Some parsed →
       parsed ≠ JNull →
       SpeechCreate (lit "gpt-4o-mini-tts") (lit "alloy")
         (nullish (field parsed "voiceover_script") (JStr [])) ∈ log).
Proof.
  intros H Hb.
  apply handle_cases in H
    as [[-> _]|[[-> _]|(o & s & r & log' & Ho & _ & _ & Hp & Hr)]].
  1,2: split; [intros _ ??? Hin|intros _ ?? Hin]; by in_log Hin.
  assert (bd = JObj o) as -> by congruence. unfold mode_of. cbn [field].
  rewrite <- strict_eq_str_true.
  trace Hp raw.
  1-5: split; [intros _ ??? Hin|intros _ ?? Hin];
    destruct Hr as [_ ->]; by in_log Hin.
  destruct (JSON_parse w raw) as [parsed|] eqn:Hparse.
  2:{ destruct Hp as [-> ->].
      split; [intros _ ??? Hin|intros _ ?? Hin ? ];
        destruct Hr as [_ ->]; in_log Hin; congruence. }
  destruct (strict_eq_str _ (lit "notes")) eqn:Hmode.
  - split; [intros _ ??? Hin|by intros []].
    destruct parsed; destruct Hp as [-> ->]; destruct Hr as [_ ->];
      by in_log Hin.
  - split; [done|]. intros _ raw' parsed' Hin Hparse' Hnn.
    assert (raw' = raw ∧ parsed' = parsed) as [-> ->].
    { destruct parsed;
        [destruct Hp as [-> ->]|
         destruct (speech_create w _); destruct Hp as [-> ->]..];
        destruct Hr as [_ ->]; in_log Hin; split; congruence. }
    destruct parsed; [done|destruct (speech_create w _);
      destruct Hp as [-> ->]; destruct Hr as [_ ->]..].
    all: rewrite ?elem_of_app, !elem_of_cons; tauto.
Qed.

(** X8: the notes of a 200 response are the value of [notes_markdown] in the
    assistant's decoded answer, whatever JSON value that is, and the empty
    string when it is absent or [null]. *)
Theorem notes_passed_through (w : World) (request : Request)
    (resp : Response) (log : list Event) :
  handle w request = (inr resp, log) →
  status resp = 200%nat →
  ∃ raw parsed,
    JsonParse raw ∈ log ∧ JSON_parse w raw = Some parsed ∧
    field (body resp) "notes_markdown"
      = Some (nullish (field parsed "notes_markdown") (JStr [])).
Proof.
  intros H Hs.
  apply handle_cases in H
    as [[_ [msg ?]]|[[_ [[e ?]|[msg ?]]]|
        (o & s & r & log' & Ho & _ & _ & Hp & Hr)]];
    [by simplify_eq..|].
  trace Hp raw; try (destruct Hr as [? _]; by simplify_eq).
  exists raw.
  destruct (JSON_parse w raw) as [parsed|] eqn:Hparse;
    [|destruct Hp as [-> ->]; destruct Hr as [? _]; by simplify_eq].
  exists parsed.
  assert (JsonParse raw ∈ log ∧
          ∃ a m, resp = NextResponse_json
                   (obj [("notes_markdown",
                          nullish (field parsed "notes_markdown") (JStr []));
                         ("audioBase64", a); ("mimeType", m)]) None)
    as [Hin (a & m & ->)].
  { destruct parsed;
      [destruct Hp as [-> ->]; destruct Hr as [? _]; by simplify_eq|..].
    all: destruct (strict_eq_str _ (lit "notes"));
      [|destruct (speech_create w _)];
      destruct Hp as [-> ->]; destruct Hr as [Hout ->]; simplify_eq.
    all: split; [rewrite ?elem_of_app, !elem_of_cons; tauto|by eexists _, _]. }
  split_and!; [done..|]. cbn [body NextResponse_json]. apply recap_fields.
Qed.

(** ** The thread *)

(** X9: the run is polled on the thread that was just created, for the
    configured assistant and with JSON as response format; messages are
    listed only from that thread and only once its run completed. *)
Theorem calls_use_created_thread (w : World) (request : Request) out log :
  handle w request = (out, log) →
  (∀ t a f, RunsCreateAndPoll t a f ∈ log →
     OPENAI_ASSISTANT_ID w = Some a ∧ f = lit "json_object" ∧
     ∃ messages th, ThreadsCreate messages ∈ log ∧
                    threads_create w messages = inr th ∧ t = thread_id th) ∧
  (∀ t, MessagesList t ∈ log →
     ∃ a f run, RunsCreateAndPoll t a f ∈ log ∧
                runs_createAndPoll w t a = inr run ∧
                run_status run = completed).
Proof.
  intros H.
  assert (is_set (OPENAI_ASSISTANT_ID w) = true ∨ log = []) as Hid.
  { destruct (is_set (OPENAI_API_KEY w) && is_set (OPENAI_ASSISTANT_ID w))
      eqn:Hc; [left; by apply andb_true_iff in Hc as [_ ?]|].
    destruct (handle_unconfigured w request Hc) as [msg Hu].
    right. congruence. }
  assert (∀ a, a = default [] (OPENAI_ASSISTANT_ID w) → log ≠ [] →
               OPENAI_ASSISTANT_ID w = Some a) as Haid.
  { intros a -> Hne. destruct Hid as [Hid|?]; [|done].
    by destruct (OPENAI_ASSISTANT_ID w). }
  apply handle_cases in H
    as [[-> _]|[[-> _]|(o & s & r & log' & Ho & _ & _ & Hp & Hr)]].
  1,2: split; [intros ??? Hin|intros ? Hin]; by in_log Hin.
  assert (∃ evs, log = RequestJson :: evs ∧
                 ∀ ev, ev ∈ log' → ev ∈ log) as (evs0 & Hlog & Hsub).
  { apply pipeline_stages in Hp as (evs & n & -> & _).
    destruct r; destruct Hr as [_ ->]; (eexists; split; [reflexivity|]);
      intros ev Hin; [apply elem_of_app; by left|done]. }
  assert (log ≠ []) as Hne by (by rewrite Hlog). clear Hlog.
  assert (∀ ev, ev ∈ log → ev ∈ log' ∨ ∃ e, ev = ConsoleError e) as Hsup.
  { intros ev Hin. destruct r; destruct Hr as [_ ->]; [|by left].
    apply elem_of_app in Hin as [?|Hin]; [by left|].
    right. in_log Hin. eauto. }
  clear Hr.
  assert (
    (∀ t a f, RunsCreateAndPoll t a f ∈ log' →
       a = default [] (OPENAI_ASSISTANT_ID w) ∧ f = lit "json_object" ∧
       ∃ messages th, ThreadsCreate messages ∈ log' ∧
                      threads_create w messages = inr th ∧ t = thread_id th) ∧
    (∀ t, MessagesList t ∈ log' →
       ∃ a f run, RunsCreateAndPoll t a f ∈ log' ∧
                  runs_createAndPoll w t a = inr run ∧
                  run_status run = completed)) as [Hpoll Hlist].
  { assert (∀ (l : list Event) x y, x ∈ l → x ∈ y :: l) as Hr
      by (intros; by right).
    trace Hp raw.
    1-5: split; [intros ??? Hin|intros ? Hin]; in_log Hin;
      repeat first [done | split | eexists | by left | apply Hr].
    assert (∃ tail, log' = [RequestJson] ++
              ThreadsCreate
                (seed (or_else (o !! lit "language") (JStr (lit "en")))
                      (trim s))
              :: RunsCreateAndPoll (thread_id th)
                   (default [] (OPENAI_ASSISTANT_ID w)) (lit "json_object")
              :: MessagesList (thread_id th) :: JsonParse raw :: tail ∧
              (tail = [] ∨ ∃ i, tail = [SpeechCreate (lit "gpt-4o-mini-tts")
                                            (lit "alloy") i]))
      as (tail & -> & Htail).
    { destruct (JSON_parse w raw) as [parsed|];
        [|destruct Hp as [_ ->]; eauto].
      destruct parsed; [destruct Hp as [_ ->]; eauto|..].
      all: destruct (strict_eq_str _ (lit "notes"));
        [|destruct (speech_create w _)]; destruct Hp as [_ ->]; eauto 6. }
    split; [intros ??? Hin|intros ? Hin];
      destruct Htail as [->|[i ->]]; in_log Hin;
      repeat first [done | split | eexists | by left | apply Hr]. }
  split.
  - intros t a f Hin. apply Hsup in Hin as [Hin|[e ?]]; [|done].
    destruct (Hpoll _ _ _ Hin) as (-> & -> & msgs & th & Hc & Hth & ->).
    split_and!; [by apply Haid|done|]. exists msgs, th. auto.
  - intros t Hin. apply Hsup in Hin as [Hin|[e ?]]; [|done].
    destruct (Hlist _ Hin) as (a & f & run & Hp' & ? & ?).
    exists a, f, run. auto.
Qed.

(** ** Instances *)

Import Samples.

Lemma invalid_json_rejected_witness :
  handle good_world bad_json_request =
    (inr (error_response (lit "Invalid JSON") 400), [RequestJson]) ∧
  status (error_response (lit "Invalid JSON") 400) = 400%nat ∧
  field (body (error_response (lit "Invalid JSON") 400)) "error"
    = Some (JStr (lit "Invalid JSON")).
Proof.
  apply (invalid_json_rejected good_world bad_json_request syntax_error);
    reflexivity.
Defined.

Lemma falsy_transcript_rejected_witness :
  handle good_world no_transcript_request =
    (inr (error_response (lit "Transcript is empty") 400), [RequestJson]) ∧
  status (error_response (lit "Transcript is empty") 400) = 400%nat ∧
  field (body (error_response (lit "Transcript is empty") 400)) "error"
    = Some (JStr (lit "Transcript is empty")).
Proof.
  apply (falsy_transcript_rejected good_world no_transcript_request
           (obj [("mode", JStr (lit "notes"))]));
    [reflexivity|reflexivity|reflexivity| |].
  - intros H. by vm_compute in H.
  - intros v H. by vm_compute in H.
Defined.

Lemma handler_throws_iff_witness :
  ∃ e, handle good_world null_request = (inl e, [RequestJson]).
Proof.
  apply (proj1 (handler_throws_iff good_world null_request)).
  split_and!; [reflexivity..|]. exists JNull. split; [reflexivity|by left].
Defined.

Lemma calls_in_order_witness :
  ∃ n, (n ≤ 6)%nat ∧
       (map stage (handle good_world audio_request).2 = seq 0 n ∨
        map stage (handle good_world audio_request).2 = seq 0 n ++ [6%nat]).
Proof.
  apply (calls_in_order good_world audio_request
           (handle good_world audio_request).1
           (handle good_world audio_request).2 (run_pair _ _)).
Defined.

Lemma status_and_progress_witness :
  (status audio_response = 400%nat ∧
   (handle good_world audio_request).2 = [RequestJson]) ∨
  status audio_response = 500%nat ∨
  (status audio_response = 200%nat ∧
   (map stage (handle good_world audio_request).2 = seq 0 5 ∨
    map stage (handle good_world audio_request).2 = seq 0 6)).
Proof.
  apply (status_and_progress good_world audio_request audio_response
           (handle good_world audio_request).2).
  by vm_compute.
Defined.

Lemma remote_failure_ends_request_witness :
  (handle speechless_world audio_request).1
    = inr (error_response (error_text quota_error) 500) ∧
  (∃ log',
     (handle speechless_world audio_request).2 =
       log' ++ [SpeechCreate (lit "gpt-4o-mini-tts") (lit "alloy")
                  (JStr (lit "Hello"));
                ConsoleError quota_error]) ∧
  field (body (error_response (error_text quota_error) 500)) "notes_markdown"
    = None ∧
  status (error_response (error_text quota_error) 500) = 500%nat ∧
  field (body (error_response (error_text quota_error) 500)) "error"
    = Some (JStr (error_text quota_error)).
Proof.
  apply (remote_failure_ends_request speechless_world audio_request
           _ _ _ quota_error (run_pair _ _)).
  - apply list_elem_of_lookup. by exists 5%nat.
  - reflexivity.
Defined.

Lemma synthesis_follows_mode_witness :
  (∀ model voice input,
     SpeechCreate model voice input ∉ (handle good_world notes_request).2) ∧
  SpeechCreate (lit "gpt-4o-mini-tts") (lit "alloy") (JStr (lit "Hello"))
    ∈ (handle good_world audio_request).2.
Proof.
  split.
  - apply (synthesis_follows_mode good_world notes_request
             (obj [("transcript", JStr (lit "Alice: let us ship Friday."));
                   ("mode", JStr (lit "notes"));
                   ("language", JStr (lit "en"))])
             _ _ (run_pair _ _) eq_refl).
    by vm_compute.
  - apply (proj2
             (synthesis_follows_mode good_world audio_request
                (obj [("transcript", JStr (lit "Alice: let us ship Friday."));
                      ("mode", JStr (lit "notes+audio"));
                      ("language", JStr (lit "sv"))])
                _ _ (run_pair _ _) eq_refl)
             ltac:(intros H; by vm_compute in H)
             answer_text
             (obj [("notes_markdown", JStr (lit "# Notes"));
                   ("voiceover_script", JStr (lit "Hello"))])).
    + apply list_elem_of_lookup. by exists 4%nat.
    + by vm_compute.
    + intros H. by vm_compute in H.
Defined.

Lemma notes_passed_through_witness :
  ∃ raw parsed,
    JsonParse raw ∈ (handle good_world notes_request).2 ∧
    JSON_parse good_world raw = Some parsed ∧
    field (body notes_response) "notes_markdown"
      = Some (nullish (field parsed "notes_markdown") (JStr [])).
Proof.
  apply (notes_passed_through good_world notes_request notes_response
           (handle good_world notes_request).2).
  - by vm_compute.
  - reflexivity.
Defined.

Lemma calls_use_created_thread_witness :
  ∃ a f run,
    RunsCreateAndPoll (lit "thread_1") a f
      ∈ (handle good_world notes_request).2 ∧
    runs_createAndPoll good_world (lit "thread_1") a = inr run ∧
    run_status run = completed.
Proof.
  apply (proj2 (calls_use_created_thread good_world notes_request
                  _ _ (run_pair _ _))).
  apply list_elem_of_lookup. by exists 3%nat.
Defined.

End RouteExtras.

(** * Properties of the base64 text *)

Module Base64Facts.
Import Route Atob.

(** ** Checking all bytes *)

Lemma below_forallb (n : nat) (P : N → bool) :
  forallb P (map N.of_nat (seq 0 n)) = true →
  ∀ a, a < N.of_nat n → P a = true.
Proof.
  intros H a Ha. rewrite forallb_forall in H. apply H.
  apply in_map_iff. exists (N.to_nat a).
  split; [apply N2Nat.id|]. apply in_seq. lia.
Qed.

Lemma below_forallb2 (n m : nat) (P : N → N → bool) :
  forallb (λ a, forallb (P a) (map N.of_nat (seq 0 m)))
          (map N.of_nat (seq 0 n)) = true →
  ∀ a b, a < N.of_nat n → b < N.of_nat m → P a b = true.
Proof.
  intros H a b Ha Hb.
  apply (below_forallb m (P a)); [|done].
  by apply (below_forallb n (λ a, forallb (P a) _)).
Qed.

(** The four 6-bit values of three bytes. *)
Lemma group_values (a b c : N) :
  a < 256 → b < 256 → c < 256 →
  N.shiftr a 2 < 64 ∧
  N.lor (N.shiftl (N.land a 3) 4) (N.shiftr b 4) < 64 ∧
  N.lor (N.shiftl (N.land b 15) 2) (N.shiftr c 6) < 64 ∧
  N.land c 63 < 64 ∧
  N.shiftl (N.land a 3) 4 < 64 ∧
  N.shiftl (N.land b 15) 2 < 64.
Proof.
  intros Ha Hb Hc.
  pose proof (below_forallb 256
    (λ a, (N.shiftr a 2 <? 64) && (N.land a 63 <? 64)
          && (N.shiftl (N.land a 3) 4 <? 64)
          && (N.shiftl (N.land a 15) 2 <? 64))
    ltac:(vm_compute; reflexivity)) as H1.
  pose proof (below_forallb2 256 256
    (λ a b, (N.lor (N.shiftl (N.land a 3) 4) (N.shiftr b 4) <? 64)
            && (N.lor (N.shiftl (N.land a 15) 2) (N.shiftr b 6) <? 64))
    ltac:(vm_compute; reflexivity)) as H2.
  pose proof (H1 a Ha) as Ha1. pose proof (H1 b Hb) as Hb1.
  pose proof (H1 c Hc) as Hc1.
  pose proof (H2 a b Ha Hb) as Hab. pose proof (H2 b c Hb Hc) as Hbc.
  cbv beta in *.
  repeat match goal with
         | H : _ && _ = true |- _ => apply andb_true_iff in H as [? ?]
         | H : (_ <? _) = true |- _ => apply N.ltb_lt in H
         end.
  by split_and!.
Qed.

(** Three bytes come back from their four values, and one or two bytes
    from the two or three values of the last group. *)
Lemma group_bytes (a b c : N) :
  a < 256 → b < 256 → c < 256 →
  let s1 := N.shiftr a 2 in
  let s2 := N.lor (N.shiftl (N.land a 3) 4) (N.shiftr b 4) in
  let s3 := N.lor (N.shiftl (N.land b 15) 2) (N.shiftr c 6) in
  let s4 := N.land c 63 in
  N.lor (N.shiftl s1 2) (N.shiftr s2 4) = a ∧
  N.lor (N.shiftl (N.land s2 15) 4) (N.shiftr s3 2) = b ∧
  N.lor (N.shiftl (N.land s3 3) 6) s4 = c ∧
  N.lor (N.shiftl (N.land s2 15) 4) (N.shiftr (N.shiftl (N.land b 15) 2) 2)
    = b ∧
  N.lor (N.shiftl s1 2) (N.shiftr (N.shiftl (N.land a 3) 4) 4) = a.
Proof.
  intros Ha Hb Hc. cbv zeta.
  pose proof (below_forallb 256
    (λ a, (N.lor (N.shiftl (N.shiftr a 4) 4) (N.land a 15) =? a)
          && (N.lor (N.shiftl (N.shiftr a 6) 6) (N.land a 63) =? a)
          && (N.shiftr (N.shiftl (N.land a 15) 2) 2 =? N.land a 15)
          && (N.lor (N.shiftl (N.shiftr a 2) 2)
                    (N.shiftr (N.shiftl (N.land a 3) 4) 4) =? a))
    ltac:(vm_compute; reflexivity)) as H1.
  pose proof (below_forallb2 256 256
    (λ a b,
       let s2 := N.lor (N.shiftl (N.land a 3) 4) (N.shiftr b 4) in
       let s3 := N.lor (N.shiftl (N.land a 15) 2) (N.shiftr b 6) in
       (N.lor (N.shiftl (N.shiftr a 2) 2) (N.shiftr s2 4) =? a)
       && (N.land s2 15 =? N.shiftr b 4)
       && (N.shiftr s3 2 =? N.land a 15)
       && (N.land s3 3 =? N.shiftr b 6))
    ltac:(vm_compute; reflexivity)) as H2.
  pose proof (H1 a Ha) as Ha1. pose proof (H1 b Hb) as Hb1.
  pose proof (H1 c Hc) as Hc1.
  pose proof (H2 a b Ha Hb) as Hab. pose proof (H2 b c Hb Hc) as Hbc.
  cbv beta zeta in *.
  repeat match goal with
         | H : _ && _ = true |- _ => apply andb_true_iff in H as [? ?]
         | H : (_ =? _) = true |- _ => apply N.eqb_eq in H
         end.
  split_and!; congruence.
Qed.

(** ** The characters of the encoding *)

Lemma base64_value_char (i : N) :
  i < 64 →
  base64_value (base64_char i) = Some i ∧
  is_ascii_whitespace (base64_char i) = false ∧
  (base64_char i =? 61) = false.
Proof.
  intros Hi.
  pose proof (below_forallb 64
    (λ i, match base64_value (base64_char i) with
          | Some j => j =? i
          | None => false
          end
          && negb (is_ascii_whitespace (base64_char i))
          && negb (base64_char i =? 61))
    ltac:(vm_compute; reflexivity) i Hi) as H.
  cbv beta in H.
  apply andb_true_iff in H as [H H3]. apply andb_true_iff in H as [H1 H2].
  apply negb_true_iff in H2, H3.
  destruct (base64_value (base64_char i)) as [j|]; [|done].
  apply N.eqb_eq in H1 as ->. done.
Qed.

Lemma mapM_base64_value (vs : list N) :
  Forall (λ v, v < 64) vs →
  mapM base64_value (map base64_char vs) = Some vs.
Proof.
  induction 1 as [|v vs Hv _ IH]; [done|].
  destruct (base64_value_char v Hv) as (Hv' & _).
  cbn [map mapM]. rewrite Hv'. cbn [mbind option_bind]. by rewrite IH.
Qed.

(** ** The shape of the encoding *)

Lemma triple_ind (P : list N → Prop) :
  P [] → (∀ a, P [a]) → (∀ a b, P [a; b]) →
  (∀ a b c rest, P rest → P (a :: b :: c :: rest)) →
  ∀ l, P l.
Proof.
  intros H0 H1 H2 H3 l.
  assert (P l ∧ (∀ a, P (a :: l)) ∧ ∀ a b, P (a :: b :: l)) as [? _];
    [|done].
  induction l as [|c l (IH0 & IH1 & IH2)]; [by split_and!|].
  split; [apply IH1|]. split; [intros a; apply IH2|].
  intros a b. by apply H3.
Qed.

Lemma strip_padding_app (x y : jsstring) :
  (2 ≤ length y)%nat → strip_padding (x ++ y) = x ++ strip_padding y.
Proof.
  intros Hy. unfold strip_padding. rewrite rev_app_distr.
  destruct (rev y) as [|c1 [|c2 r]] eqn:Hr.
  - apply (f_equal length) in Hr. rewrite length_rev in Hr. cbn in Hr. lia.
  - apply (f_equal length) in Hr. rewrite length_rev in Hr. cbn in Hr. lia.
  - cbn [app].
    assert (y = rev r ++ [c2; c1]) as Hy'.
    { rewrite <- (rev_involutive y), Hr. cbn [rev].
      by rewrite <- (assoc_L (++)). }
    destruct (c1 =? 61); [|done].
    destruct (c2 =? 61).
    + by rewrite rev_app_distr, rev_involutive.
    + cbn [rev]. by rewrite rev_app_distr, rev_involutive, <- app_assoc.
Qed.

(** The encoding is made of groups of four characters, none of them
    whitespace, and without its padding it spells the 6-bit values from
    which the bytes come back. *)
Lemma encoding_shape (bs : list N) :
  Forall (λ b, b < 256) bs →
  (length (base64_of_N bs) = 4 * ((length bs + 2) / 3))%nat ∧
  Forall (λ c, is_ascii_whitespace c = false) (base64_of_N bs) ∧
  ∃ vs, strip_padding (base64_of_N bs) = map base64_char vs ∧
        Forall (λ v, v < 64) vs ∧
        bytes_of_values vs = bs ∧
        (length vs `mod` 4 ≠ 1)%nat.
Proof.
  induction bs as [|a|a b|a b c rest IH] using triple_ind; intros Hbs.
  - split_and!; [done|constructor|]. by exists [].
  - apply Forall_cons in Hbs as [Hbs _]. cbv beta in Hbs.
    destruct (group_values a 0 0) as (H1 & _ & _ & _ & H2 & _);
      [lia..|].
    destruct (group_bytes a 0 0) as (_ & _ & _ & _ & Ha); [lia..|].
    cbv zeta in Ha. cbn [base64_of_N].
    destruct (base64_value_char _ H1) as (_ & Hw1 & Hp1).
    destruct (base64_value_char _ H2) as (_ & Hw2 & Hp2).
    split_and!; [done|by repeat constructor|].
    exists [N.shiftr a 2; N.shiftl (N.land a 3) 4].
    split_and!; [done|by repeat constructor| |done].
    cbn [bytes_of_values]. by rewrite Ha.
  - apply Forall_cons in Hbs as [Ha Hbs].
    apply Forall_cons in Hbs as [Hbs _]. cbv beta in Ha, Hbs.
    destruct (group_values a b 0) as (H1 & H2 & _ & _ & _ & H3);
      [lia..|].
    destruct (group_bytes a b 0) as (Ha' & _ & _ & Hb' & _); [lia..|].
    cbv zeta in Ha', Hb'. cbn [base64_of_N].
    destruct (base64_value_char _ H1) as (_ & Hw1 & Hp1).
    destruct (base64_value_char _ H2) as (_ & Hw2 & Hp2).
    destruct (base64_value_char _ H3) as (_ & Hw3 & Hp3).
    split_and!; [done|by repeat constructor|].
    exists [N.shiftr a 2;
            N.lor (N.shiftl (N.land a 3) 4) (N.shiftr b 4);
            N.shiftl (N.land b 15) 2].
    split_and!; [|by repeat constructor| |done].
    + unfold strip_padding, base64_pad. cbn [rev app].
      by rewrite N.eqb_refl, Hp3.
    + cbn [bytes_of_values]. by rewrite Ha', Hb'.
  - apply Forall_cons in Hbs as [Ha Hbs]. apply Forall_cons in Hbs as [Hb Hbs].
    apply Forall_cons in Hbs as [Hc Hbs]. cbv beta in Ha, Hb, Hc.
    destruct (IH Hbs) as (Hlen & Hws & vs & Hvs & Hlt & Hbytes & Hmod).
    destruct (group_values a b c) as (H1 & H2 & H3 & H4 & _ & _); [lia..|].
    destruct (group_bytes a b c) as (Ha' & Hb' & Hc' & _ & _); [lia..|].
    cbv zeta in Ha', Hb', Hc'. cbn [base64_of_N].
    destruct (base64_value_char _ H1) as (_ & Hw1 & Hp1).
    destruct (base64_value_char _ H2) as (_ & Hw2 & Hp2).
    destruct (base64_value_char _ H3) as (_ & Hw3 & Hp3).
    destruct (base64_value_char _ H4) as (_ & Hw4 & Hp4).
    split_and!.
    + cbn [length]. rewrite Hlen.
      replace (S (S (S (length rest))) + 2)%nat
        with (1 * 3 + (length rest + 2))%nat by lia.
      rewrite Nat.div_add_l by done. lia.
    + by repeat constructor.
    + exists (N.shiftr a 2
              :: N.lor (N.shiftl (N.land a 3) 4) (N.shiftr b 4)
              :: N.lor (N.shiftl (N.land b 15) 2) (N.shiftr c 6)
              :: N.land c 63 :: vs).
      split_and!.
      * destruct rest as [|r rest].
        -- cbn [base64_of_N] in *. unfold strip_padding in Hvs |- *.
           cbn [rev app]. rewrite Hp4. cbn [rev app] in Hvs.
           destruct vs; [done|discriminate].
        -- change (?c1 :: ?c2 :: ?c3 :: ?c4 :: base64_of_N (r :: rest))
             with ([c1; c2; c3; c4] ++ base64_of_N (r :: rest)).
           rewrite strip_padding_app, Hvs; [done|].
           rewrite Hlen. cbn [length].
           assert (1 ≤ (S (length rest) + 2) / 3)%nat; [|lia].
           apply Nat.div_le_lower_bound; lia.
      * by repeat constructor.
      * cbn [bytes_of_values]. by rewrite Ha', Hb', Hc', Hbytes.
      * cbn [length].
        replace (S (S (S (S (length vs))))) with (length vs + 1 * 4)%nat
          by lia.
        by rewrite Nat.Div0.mod_add.
Qed.

Lemma filter_all (f : N → bool) (l : list N) :
  Forall (λ c, f c = true) l → List.filter f l = l.
Proof.
  induction 1 as [|c l Hc _ IH]; [done|]. cbn. by rewrite Hc, IH.
Qed.

Lemma decode_encode (bs : list N) :
  Forall (λ b, b < 256) bs →
  forgiving_base64_decode (base64_of_N bs) = Some bs.
Proof.
  intros Hbs.
  destruct (encoding_shape bs Hbs)
    as (Hlen & Hws & vs & Hvs & Hlt & Hbytes & Hmod).
  unfold forgiving_base64_decode. cbv zeta.
  rewrite filter_all.
  2:{ eapply Forall_impl; [exact Hws|]. by intros c ->. }
  rewrite Hlen, Nat.mul_comm, Nat.Div0.mod_mul. cbn [Nat.eqb].
  rewrite Hvs, length_map.
  destruct (Nat.eqb_spec (length vs `mod` 4) 1); [done|].
  by rewrite mapM_base64_value, <- Hbytes.
Qed.

(** ** The round trip *)

Lemma bytes_below (buffer : list Byte.byte) :
  Forall (λ b, b < 256) (map Byte.to_N buffer).
Proof.
  apply Forall_map, Forall_forall. intros x _.
  pose proof (Byte.to_N_bounded x). cbv beta. lia.
Qed.

Lemma encoded_length (buffer : list Byte.byte) :
  (length (toString_base64 buffer) = 4 * ((length buffer + 2) / 3))%nat.
Proof.
  destruct (encoding_shape _ (bytes_below buffer)) as (Hlen & _).
  by rewrite length_map in Hlen.
Qed.

Lemma encoded_nil (buffer : list Byte.byte) :
  toString_base64 buffer = [] ↔ buffer = [].
Proof.
  split; [|by intros ->].
  intros He. pose proof (encoded_length buffer) as Hlen.
  rewrite He in Hlen.
  destruct buffer as [|x buffer]; [done|]. cbn [length] in Hlen.
  assert (1 ≤ (S (length buffer) + 2) / 3)%nat; [|lia].
  apply Nat.div_le_lower_bound; lia.
Qed.

Lemma atob_encoded (wording : jsstring) (buffer : list Byte.byte) :
  window_atob wording (toString_base64 buffer) = inr (map Byte.to_N buffer).
Proof.
  unfold window_atob, toString_base64.
  by rewrite decode_encode by apply bytes_below.
Qed.

(** X10: what the route sends as [audioBase64] for the bytes of the speech
    is decoded by [atob] to the same bytes; its length is four characters
    for every three bytes begun, and it is empty only for no bytes at
    all. *)
Theorem atob_of_base64 (wording : jsstring) (buffer : list Byte.byte) :
  window_atob wording (toString_base64 buffer) = inr (map Byte.to_N buffer) ∧
  (length (toString_base64 buffer) = 4 * ((length buffer + 2) / 3))%nat ∧
  (toString_base64 buffer = [] ↔ buffer = []).
Proof.
  split_and!.
  - apply atob_encoded.
  - apply encoded_length.
  - apply encoded_nil.
Qed.

End Base64Facts.

(** * More properties of the page *)

Module PageExtras.
Import Page JsFacts PageProofs.

Local Open Scope nat_scope.

(** ** One run of [handleGenerate] *)

(** The state that a run of [handleGenerate] leaves, case by case. *)
Lemma handleGenerate_run (b : Browser) (s : State) :
  handleGenerate b s =
    (inr (),
     let s0 :=
       setAudioBlob None (setAudioUrl None (setNotes [] (setError None s))) in
     if nonempty (trim (transcript s)) then
       let s1 := setLoading true s0 in
       setLoading false
         match fetch_recap b {| body_transcript := transcript s;
                                body_mode := mode s;
                                body_language := language s |} with
         | inl e => setError (Some (error_text e)) s1
         | inr res =>
             if ok res then
               match res_json res with
               | inl e => setError (Some (error_text e)) s1
               | inr data =>
                   let item :=
                     {| id := Date_now b;
                        createdAt := Date_toISOString b;
                        item_mode := mode s;
                        item_language := language s;
                        notesSnippet :=
                          slice0 120 (or_empty (notes_markdown data)) |} in
                   let s2 :=
                     persistHistory (take 20 (item :: history s))
                       (setNotes (or_empty (notes_markdown data)) s1) in
                   match audioBase64 data, mimeType data with
                   | Some base64, Some mime =>
                       if nonempty base64 && nonempty mime then
                         match atob b base64 with
                         | inl e => setError (Some (error_text e)) s2
                         | inr byteChars =>
                             let blob :=
                               {| blob_bytes :=
                                    map (λ c, (c mod 256)%N) byteChars;
                                  blob_type := mime |} in
                             setAudioUrl (Some (createObjectURL b blob))
                               (setAudioBlob (Some blob) s2)
                         end
                       else s2
                   | _, _ => s2
                   end
               end
             else
               match res_text res with
               | inl e => setError (Some (error_text e)) s1
               | inr text =>
                   setError
                     (Some (error_text
                              (Error (lit "Error " ++ decimal (res_status res)
                                        ++ lit ": " ++ text)))) s1
               end
         end
     else
       setError
         (Some (lit "Please paste a transcript or upload a text file first."))
         s0).
Proof.
  run_page. cbv zeta.
  destruct (nonempty (trim (transcript s))); cbn [negb]; [|done].
  destruct (fetch_recap b _) as [e|res]; [done|].
  destruct (ok res); cbn [negb]; [|by destruct (res_text res)].
  destruct (res_json res) as [e|data]; [done|].
  destruct (audioBase64 data) as [a|]; [|done].
  destruct (mimeType data) as [m|]; [|done].
  destruct (nonempty a && nonempty m); [|done].
  by destruct (atob b a).
Qed.


(** X11: a click on "Generate recap" with a blank transcript sends nothing:
    whatever the browser would answer, the page ends in the same state,
    which shows the request to paste a transcript, has lost the notes and
    the audio shown before, and leaves the loading flag, the history and
    the storage as they were. *)
Theorem blank_transcript_not_sent (b : Browser) (s : State) :
  nonempty (trim (transcript s)) = false →
  (∀ b', handleGenerate b' s = handleGenerate b s) ∧
  let s' := (handleGenerate b s).2 in
  error s' =
    Some (lit "Please paste a transcript or upload a text file first.") ∧
  notes s' = [] ∧ audioUrl s' = None ∧ audioBlob s' = None ∧
  loading s' = loading s ∧ history s' = history s ∧
  localStorage s' = localStorage s.
Proof.
  intros Hblank. split.
  - intros b'. rewrite !handleGenerate_run. cbv zeta. by rewrite Hblank.
  - rewrite handleGenerate_run. cbv zeta. by rewrite Hblank.
Qed.




(** X15: when the answer's audio does not decode, the notes are shown and
    the entry is recorded all the same; the page then shows the decoder's
    error beside the notes, and no audio. *)
Theorem undecodable_audio_keeps_notes (b : Browser) (s : State)
    (res : FetchResponse) (data : RecapResponse) (base64 mime : jsstring)
    (e : JsError) :
  nonempty (trim (transcript s)) = true →
  fetch_recap b {| body_transcript := transcript s; body_mode := mode s;
                   body_language := language s |} = inr res →
  ok res = true →
  res_json res = inr data →
  carried_audio data = Some (base64, mime) →
  atob b base64 = inl e →
  let s' := (handleGenerate b s).2 in
  error s' = Some (error_text e) ∧
  notes s' = or_empty (notes_markdown data) ∧
  audioBlob s' = None ∧ audioUrl s' = None ∧ loading s' = false ∧
  (∃ item, generated b s = Some item ∧
           history s' = take 20 (item :: history s) ∧
           localStorage s' !! HISTORY_KEY = Some (StoredHistory (history s'))).
Proof.
  intros Hne Hfetch Hok Hjson Haudio Hatob.
  rewrite handleGenerate_run. cbv zeta. unfold generated.
  rewrite Hne, Hfetch, Hok, Hjson. unfold carried_audio in Haudio.
  destruct (audioBase64 data) as [a|]; [|done].
  destruct (mimeType data) as [m|]; [|done].
  destruct (nonempty a && nonempty m); [|done].
  injection Haudio as -> ->. rewrite Hatob. cbn.
  split_and!; try done. eexists. split; [done|]. split; [done|].
  by rewrite lookup_insert_eq.
Qed.


(** ** Sessions *)

Lemma keys_differ : THEME_KEY ≠ HISTORY_KEY.
Proof. by vm_compute. Qed.

Lemma reload_theme (s : State) :
  theme (reload s) =
    match localStorage s !! THEME_KEY with
    | Some (StoredTheme t) => t
    | _ => dark
    end.
Proof.
  unfold reload, useEffect_mount. cbn.
  by destruct (localStorage s !! HISTORY_KEY) as [[]|].
Qed.

Lemma reload_history (s : State) :
  history (reload s) =
    match localStorage s !! HISTORY_KEY with
    | Some (StoredHistory data) => data
    | _ => []
    end.
Proof.
  unfold reload, useEffect_mount. cbn.
  by destruct (localStorage s !! HISTORY_KEY) as [[]|].
Qed.

Lemma mount_storage (s : State) :
  localStorage (useEffect_mount s) = localStorage s.
Proof.
  unfold useEffect_mount. cbn.
  by destruct (localStorage s !! HISTORY_KEY) as [[]|].
Qed.

Lemma handleGenerate_theme (b : Browser) (s : State) :
  theme (handleGenerate b s).2 = theme s ∧
  localStorage (handleGenerate b s).2 !! THEME_KEY
    = localStorage s !! THEME_KEY.
Proof.
  pose proof (handleGenerate_history b s) as Hh. cbv zeta in Hh.
  split.
  - rewrite handleGenerate_run. cbv zeta. cbn [snd].
    repeat case_match; reflexivity.
  - destruct (generated b s).
    + destruct Hh as [_ ->]. by rewrite lookup_insert_ne by (symmetry; apply keys_differ).
    + by destruct Hh as [_ ->].
Qed.

Lemma synced_act (a : Action) (s : State) : synced s → synced (act a s).
Proof.
  unfold synced. rewrite !reload_theme, !reload_history.
  intros [Hh Ht]. destruct a as [b| |file read|item| |m|l|t]; cbn [act].
  - destruct (handleGenerate_theme b s) as [-> ->].
    split; [|done].
    pose proof (handleGenerate_history b s) as Hg. cbv zeta in Hg.
    destruct (generated b s).
    + destruct Hg as [_ ->]. by rewrite lookup_insert_eq.
    + by destruct Hg as [-> ->].
  - unfold handleDownloadZip. by destruct (negb (nonempty (notes s))).
  - unfold handleFileChange. destruct file as [file|]; [|done].
    destruct (_ && _); [done|]. by destruct read.
  - done.
  - unfold toggleTheme. cbn.
    rewrite lookup_insert_eq, lookup_insert_ne by apply keys_differ. done.
  - done.
  - done.
  - done.
Qed.

Lemma synced_session (actions : list Action) (s : State) :
  synced s → synced (session actions s).
Proof.
  unfold session. revert s.
  induction actions as [|a actions IH]; intros s Hs; [done|].
  cbn [foldl]. by apply IH, synced_act.
Qed.

(** X17: whatever the user does after the page has mounted (generating,
    downloading, uploading, viewing snippets, switching the theme, the
    mode or the language, typing), a reload of the page brings back the
    history and the theme that the page was showing. *)
Theorem reload_restores_history_and_theme
    (store : gmap jsstring Stored) (actions : list Action) :
  let s := session actions (useEffect_mount (first_render store)) in
  history (reload s) = history s ∧ theme (reload s) = theme s.
Proof.
  apply synced_session. unfold synced.
  rewrite reload_theme, reload_history, mount_storage.
  unfold useEffect_mount. cbn.
  destruct (store !! HISTORY_KEY) as [[]|], (store !! THEME_KEY) as [[]|];
    done.
Qed.

Lemma act_theme (a : Action) (s : State) :
  theme (act a s) = if is_toggle a then other_theme (theme s) else theme s.
Proof.
  destruct a as [b| |file read|item| |m|l|t]; cbn [act is_toggle];
    try reflexivity.
  - apply handleGenerate_theme.
  - unfold handleDownloadZip. by destruct (negb (nonempty (notes s))).
  - unfold handleFileChange. destruct file as [file|]; [|done].
    destruct (_ && _); [done|]. by destruct read.
Qed.

(** X18: only the theme button changes the theme: after any session the
    theme is the one the session started with if the button was clicked an
    even number of times, and the other one if not. *)
Theorem theme_follows_toggles (actions : list Action) (s : State) :
  theme (session actions s) =
    if Nat.even (length (List.filter is_toggle actions)) then theme s
    else other_theme (theme s).
Proof.
  unfold session. revert s.
  induction actions as [|a actions IH]; intros s; [done|].
  cbn [foldl List.filter]. rewrite IH, act_theme.
  destruct (is_toggle a); [|done].
  cbn [length]. rewrite Nat.even_succ, <- Nat.negb_even.
  destruct (Nat.even _), (theme s); reflexivity.
Qed.

(** X19: "View snippet" replaces the notes and nothing else, so a download
    after it packs the snippet of the old entry together with the audio of
    the latest run: for an entry with a non-empty snippet the archive
    holds the restored text as meeting_notes.md and, when a blob is still
    held, that blob as meeting_recap.mp3. *)
Theorem restored_snippet_download (item : HistoryItem) (s : State) :
  notesSnippet item ≠ [] →
  let s' := restoreFromHistory item s in
  audioBlob s' = audioBlob s ∧ audioUrl s' = audioUrl s ∧
  error s' = error s ∧
  ∃ d, handleDownloadZip s' = (s', Some d) ∧
       archive d !! lit "meeting_notes.md" = Some (TextEntry (notes s')) ∧
       archive d !! lit "meeting_recap.mp3" = BlobEntry <$> audioBlob s.
Proof.
  intros Hne. cbv zeta. split_and!; try reflexivity.
  unfold handleDownloadZip, restoreFromHistory. cbn [notes audioBlob setNotes].
  destruct (notesSnippet item) as [|c snippet] eqn:Hs; [done|].
  cbn [app nonempty negb]. eexists. split; [reflexivity|].
  cbn [archive]. unfold zip_file.
  destruct (audioBlob s) as [blob|]; cbn [fmap option_fmap option_map].
  - rewrite lookup_insert_eq. split; [|done].
    rewrite lookup_insert_ne by (by vm_compute). by rewrite lookup_insert_eq.
  - rewrite lookup_insert_eq. split; [done|].
    rewrite lookup_insert_ne by (by vm_compute). apply lookup_empty.
Qed.

(** X20: viewing the entry that a run has just recorded shows the run's
    notes unchanged when they are shorter than 120 code units, and their
    first 120 code units followed by " ..." otherwise; notes of exactly
    120 code units get the mark although nothing was cut. *)
Theorem view_of_recorded_entry (b : Browser) (s s1 : State)
    (res : FetchResponse) (data : RecapResponse) :
  nonempty (trim (transcript s)) = true →
  fetch_recap b {| body_transcript := transcript s; body_mode := mode s;
                   body_language := language s |} = inr res →
  ok res = true →
  res_json res = inr data →
  let n := or_empty (notes_markdown data) in
  ∃ item,
    head (history (handleGenerate b s).2) = Some item ∧
    notes (restoreFromHistory item s1) =
      if length n <? 120 then n else take 120 n ++ lit " ...".
Proof.
  intros Hne Hfetch Hok Hjson n.
  pose proof (handleGenerate_history b s) as Hh. cbv zeta in Hh.
  unfold generated in Hh. rewrite Hne, Hfetch, Hok, Hjson in Hh.
  destruct Hh as [-> _]. eexists. split; [reflexivity|].
  unfold restoreFromHistory. cbn [notes setNotes notesSnippet].
  fold n. unfold slice0. rewrite length_take.
  destruct (length n <? 120) eqn:Hlen.
  - apply Nat.ltb_lt in Hlen.
    replace (120 `min` length n =? 120) with false
      by (symmetry; apply Nat.eqb_neq; lia).
    rewrite take_ge by lia. apply app_nil_r.
  - apply Nat.ltb_ge in Hlen.
    replace (120 `min` length n =? 120) with true
      by (symmetry; apply Nat.eqb_eq; lia).
    done.
Qed.

(** ** Uploads *)

Lemma split_nonempty (sep : N) (s : jsstring) : split sep s ≠ [].
Proof.
  destruct s as [|c s]; [done|]. cbn [split].
  destruct (c =? sep)%N; [done|]. by destruct (split sep s).
Qed.

Lemma split_app (sep : N) (stem ext : jsstring) :
  split sep (stem ++ sep :: ext) = split sep stem ++ split sep ext.
Proof.
  induction stem as [|c stem IH]; cbn [app split].
  - by rewrite N.eqb_refl.
  - rewrite IH. destruct (c =? sep)%N; [done|].
    pose proof (split_nonempty sep stem).
    by destruct (split sep stem).
Qed.

Lemma split_plain (sep : N) (s : jsstring) :
  sep ∉ s → split sep s = [s].
Proof.
  induction s as [|c s IH]; [done|]. intros Hnot.
  apply not_elem_of_cons in Hnot as [Hc Hs]. cbn [split].
  rewrite IH by done.
  by destruct (N.eqb_spec c sep) as [->|].
Qed.

(** The extension that [handleFileChange] looks at is what follows the last
    dot of the name, and the whole name when it has no dot. *)
Lemma extension_of_name (name ext : jsstring) :
  (46%N ∉ ext) →
  name = ext ∨ (∃ stem, name = stem ++ 46%N :: ext) →
  last (split 46 name) = Some ext.
Proof.
  intros Hext [->|[stem ->]].
  - by rewrite split_plain.
  - rewrite split_app, (split_plain _ ext) by done. apply last_snoc.
Qed.

(** X21: a file is read when its declared type is text/plain,
    text/markdown or empty, whatever its name, and also when what follows
    the last dot of its name (the whole name, if it has no dot) is "txt" or
    "md" in any letter case, whatever its type.  The text read replaces the
    transcript and an error shown before stays; a failed read shows
    "Failed to read file." and keeps the transcript. *)
Theorem upload_accepted (file : File) (ext : jsstring) (read : ReadOutcome)
    (s : State) :
  file_type file ∈ allowed ∨
  ((46%N ∉ ext) ∧
   (file_name file = ext ∨ ∃ stem, file_name file = stem ++ 46%N :: ext) ∧
   (toLowerCase ext = lit "txt" ∨ toLowerCase ext = lit "md")) →
  let s' := handleFileChange (Some file) read s in
  match read with
  | Loaded result =>
      transcript s' = or_empty result ∧ error s' = error s
  | Failed =>
      transcript s' = transcript s ∧
      error s' = Some (lit "Failed to read file.")
  end ∧
  notes s' = notes s ∧ history s' = history s.
Proof.
  intros Hok. cbv zeta. unfold handleFileChange.
  assert (negb (bool_decide (file_type file ∈ allowed))
          && negb (bool_decide
                     (toLowerCase <$> last (split 46 (file_name file))
                      = Some (lit "txt")))
          && negb (bool_decide
                     (toLowerCase <$> last (split 46 (file_name file))
                      = Some (lit "md"))) = false) as ->.
  { destruct Hok as [Htype|(Hext & Hname & Hlow)].
    - by rewrite (bool_decide_eq_true_2 _ Htype).
    - rewrite (extension_of_name _ ext Hext Hname). cbn [fmap option_fmap option_map].
      destruct Hlow as [->| ->].
      + rewrite (bool_decide_eq_true_2 (Some (lit "txt") = Some (lit "txt")))
          by done.
        by rewrite andb_false_r.
      + rewrite (bool_decide_eq_true_2 (Some (lit "md") = Some (lit "md")))
          by done.
        by rewrite andb_false_r. }
  by destruct read.
Qed.

(** X22: a file with a declared type other than text/plain and
    text/markdown, and a name whose last dot (or start) is followed by
    something other than "txt" and "md" in any letter case, is not read:
    whatever the reader would report, the page shows the message about
    supported files and keeps the transcript. *)
Theorem upload_rejected (file : File) (ext : jsstring) (read : ReadOutcome)
    (s : State) :
  file_type file ∉ allowed →
  (46%N ∉ ext) →
  file_name file = ext ∨ (∃ stem, file_name file = stem ++ 46%N :: ext) →
  toLowerCase ext ≠ lit "txt" →
  toLowerCase ext ≠ lit "md" →
  let s' := handleFileChange (Some file) read s in
  error s' =
    Some (lit "Only plain text files (.txt, .md) are supported in this version.") ∧
  transcript s' = transcript s ∧ notes s' = notes s.
Proof.
  intros Htype Hext Hname Htxt Hmd. cbv zeta. unfold handleFileChange.
  rewrite (extension_of_name _ ext Hext Hname).
  cbn [fmap option_fmap option_map].
  rewrite (bool_decide_eq_false_2 _ Htype).
  rewrite !bool_decide_eq_false_2 by congruence.
  done.
Qed.

(** ** Instances *)

Import Samples.

Lemma blank_transcript_not_sent_witness :
  handleGenerate refusing_browser initial_page
    = handleGenerate answering_browser initial_page ∧
  error (handleGenerate answering_browser initial_page).2 =
    Some (lit "Please paste a transcript or upload a text file first.").
Proof.
  pose proof (blank_transcript_not_sent answering_browser initial_page
                eq_refl) as H.
  cbv zeta in H. destruct H as (Hsame & Herr & _).
  split; [apply Hsame|exact Herr].
Defined.



Lemma undecodable_audio_keeps_notes_witness :
  error (handleGenerate (delivering broken_audio_data) ready_page).2 =
    Some (lit "The string to be decoded is not correctly encoded.") ∧
  notes (handleGenerate (delivering broken_audio_data) ready_page).2 =
    or_empty (lit "# Notes") ∧
  audioBlob (handleGenerate (delivering broken_audio_data) ready_page).2 =
    None.
Proof.
  pose proof (undecodable_audio_keeps_notes
                (delivering broken_audio_data) ready_page
                {| ok := true; res_status := 200; res_text := inr [];
                   res_json := inr broken_audio_data |}
                broken_audio_data (lit "!!!") (lit "audio/mpeg")
                {| err_name := lit "InvalidCharacterError";
                   err_message :=
                     lit "The string to be decoded is not correctly encoded." |}
                eq_refl eq_refl eq_refl eq_refl eq_refl eq_refl) as H.
  cbv zeta in H. destruct H as (He & Hn & Hb & _).
  split_and!; [exact He|exact Hn|exact Hb].
Defined.


Lemma restored_snippet_download_witness :
  ∃ d,
    handleDownloadZip (restoreFromHistory full_item playing_page)
      = (restoreFromHistory full_item playing_page, Some d) ∧
    archive d !! lit "meeting_notes.md"
      = Some (TextEntry (notes (restoreFromHistory full_item playing_page))) ∧
    archive d !! lit "meeting_recap.mp3"
      = BlobEntry <$> audioBlob playing_page.
Proof.
  pose proof (restored_snippet_download full_item playing_page) as H.
  cbv zeta in H. apply H. intros Hnil. by vm_compute in Hnil.
Defined.

Lemma view_of_recorded_entry_witness :
  ∃ item,
    head (history (handleGenerate answering_browser ready_page).2)
      = Some item ∧
    notes (restoreFromHistory item initial_page) =
      if length (or_empty long_notes) <? 120 then or_empty long_notes
      else take 120 (or_empty long_notes) ++ lit " ...".
Proof.
  apply (view_of_recorded_entry answering_browser ready_page initial_page
           {| ok := true; res_status := 200; res_text := inr [];
              res_json :=
                inr {| notes_markdown := long_notes;
                       audioBase64 := None; mimeType := None |} |}
           {| notes_markdown := long_notes;
              audioBase64 := None; mimeType := None |});
    reflexivity.
Defined.

Lemma upload_accepted_witness :
  transcript (handleFileChange (Some capitals_file)
                (Loaded (lit "Alice: let us ship Friday.")) initial_page)
    = or_empty (lit "Alice: let us ship Friday.") ∧
  error (handleFileChange (Some capitals_file)
           (Loaded (lit "Alice: let us ship Friday.")) initial_page)
    = error initial_page.
Proof.
  pose proof (upload_accepted capitals_file (lit "TXT")
                (Loaded (lit "Alice: let us ship Friday.")) initial_page)
    as H.
  cbv zeta in H. apply H. right. split_and!.
  - apply (bool_decide_unpack _). by vm_compute.
  - right. by exists (lit "Stand-up.v2").
  - by left.
Defined.

Lemma upload_rejected_witness :
  error (handleFileChange (Some recording_file)
           (Loaded (lit "ID3")) ready_page) =
    Some (lit "Only plain text files (.txt, .md) are supported in this version.") ∧
  transcript (handleFileChange (Some recording_file)
                (Loaded (lit "ID3")) ready_page) = transcript ready_page ∧
  notes (handleFileChange (Some recording_file)
           (Loaded (lit "ID3")) ready_page) = notes ready_page.
Proof.
  apply (upload_rejected recording_file (lit "mp3") (Loaded (lit "ID3"))
           ready_page).
  - apply (bool_decide_unpack _). by vm_compute.
  - apply (bool_decide_unpack _). by vm_compute.
  - right. by exists (lit "standup").
  - intros H. by vm_compute in H.
  - intros H. by vm_compute in H.
Defined.

End PageExtras.

(** * The page and the route together *)

Module EndToEnd.
Import JsFacts.

Local Open Scope nat_scope.

Lemma request_fields (sent : Page.RecapBody) (o : gmap jsstring json) :
  Route.request_json (Wire.request_of_body sent) = inr (JObj o) →
  o !! lit "transcript" = Some (JStr (Page.body_transcript sent)) ∧
  or_else (o !! lit "mode") (JStr (lit "notes"))
    = JStr (Wire.mode_text (Page.body_mode sent)) ∧
  or_else (o !! lit "language") (JStr (lit "en"))
    = JStr (Wire.language_text (Page.body_language sent)).
Proof.
  unfold Wire.request_of_body, obj. cbn [Route.request_json].
  intros [= <-].
  destruct (Page.body_mode sent), (Page.body_language sent);
    by vm_compute.
Qed.

Lemma request_object (sent : Page.RecapBody) :
  ∃ o, Route.request_json (Wire.request_of_body sent) = inr (JObj o).
Proof. by eexists. Qed.


Lemma pipeline_starts (w : Route.World) (ASSISTANT_ID transcript : jsstring)
    (mode language : json) (log log' : list Route.Event) r :
  Route.pipeline w ASSISTANT_ID transcript mode language log = (r, log') →
  ∃ rest,
    log' = log ++ Route.ThreadsCreate (Route.seed language transcript) :: rest.
Proof.
  rewrite RouteProofs.pipeline_run. cbv zeta. intros H.
  destruct (Route.threads_create w _) as [e|th]; [simplify_eq; eauto|].
  destruct (Route.runs_createAndPoll w _ _) as [e|run]; [simplify_eq; eauto|].
  destruct (bool_decide _); [|simplify_eq; eauto].
  destruct (Route.read_assistant w _ _) as [ans log1] eqn:Hra.
  apply RouteProofs.read_assistant_log in Hra as [->|[raw ->]];
    rewrite <- (assoc_L (++)) in H; cbn [app] in H;
    destruct ans as [e|[early|[nm vs]]]; simplify_eq; eauto;
    destruct (strict_eq_str mode _); simplify_eq; eauto;
    destruct (Route.speech_create w vs); simplify_eq;
    rewrite <- (assoc_L (++)); cbn [app]; eauto.
Qed.

(** X23: the route never rejects what the page sends.  For a transcript
    that passes the page's test, in a configured deployment, the handler
    takes the body that the page posts past its validation: it answers
    with status 200 or 500, never 400 and never by throwing, and the first
    thing it does after reading the body is to create the thread with the
    trimmed transcript and the instruction for the language chosen on the
    page. *)
Theorem sent_request_is_valid (w : Route.World) (s : Page.State) out log :
  Route.is_set (Route.OPENAI_API_KEY w) = true →
  Route.is_set (Route.OPENAI_ASSISTANT_ID w) = true →
  nonempty (trim (Page.transcript s)) = true →
  Route.handle w
    (Wire.request_of_body
       {| Page.body_transcript := Page.transcript s;
          Page.body_mode := Page.mode s;
          Page.body_language := Page.language s |}) = (out, log) →
  ∃ resp rest,
    out = inr resp ∧
    (Route.status resp = 200 ∨ Route.status resp = 500) ∧
    log = Route.RequestJson
          :: Route.ThreadsCreate
               [{| Route.role := Route.user;
                   Route.content :=
                     Route.user_content
                       match Page.language s with
                       | Page.en => Route.English_instruction
                       | Page.sv => Route.Swedish_instruction
                       end
                       (trim (Page.transcript s)) |}]
          :: rest.
Proof.
  intros Hk Ha Hne H.
  rewrite RouteProofs.handle_configured in H by done.
  destruct (request_object
              {| Page.body_transcript := Page.transcript s;
                 Page.body_mode := Page.mode s;
                 Page.body_language := Page.language s |}) as [o Ho].
  destruct (request_fields _ o Ho) as (Ht & Hm & Hl).
  rewrite (RouteProofs.read_request_object _ o _ _ Ho Ht) in H.
  cbn [Page.body_transcript Page.body_mode Page.body_language] in *.
  rewrite Hne, Hl in H. cbn [app] in H.
  destruct (Route.pipeline w _ _ _ _ _) as [r log'] eqn:Hp.
  destruct (pipeline_starts _ _ _ _ _ _ _ _ Hp) as [rest Hlog].
  destruct (RouteExtras.pipeline_stages _ _ _ _ _ _ _ _ Hp)
    as (evs & n & _ & _ & _ & Hst).
  assert (Route.seed
            (JStr (Wire.language_text (Page.language s)))
            (trim (Page.transcript s)) =
          [{| Route.role := Route.user;
              Route.content :=
                Route.user_content
                  match Page.language s with
                  | Page.en => Route.English_instruction
                  | Page.sv => Route.Swedish_instruction
                  end
                  (trim (Page.transcript s)) |}]) as Hseed.
  { by destruct (Page.language s). }
  cbn [Page.body_language] in Hlog. rewrite Hseed in Hlog. cbn [app] in Hlog.
  destruct r as [err|resp]; simplify_eq.
  - eexists _, _. split; [reflexivity|]. split; [by right|]. reflexivity.
  - eexists _, _. split; [reflexivity|].
    split; [by destruct (Hst _ eq_refl) as [?|[? _]]; eauto|]. reflexivity.
Qed.




(** ** Instances *)

Import Samples.

Lemma sent_request_is_valid_witness :
  ∃ resp rest,
    (Route.handle good_world
       (Wire.request_of_body
          {| Page.body_transcript := Page.transcript audio_page;
             Page.body_mode := Page.mode audio_page;
             Page.body_language := Page.language audio_page |})).1
      = inr resp ∧
    (Route.status resp = 200 ∨ Route.status resp = 500) ∧
    (Route.handle good_world
       (Wire.request_of_body
          {| Page.body_transcript := Page.transcript audio_page;
             Page.body_mode := Page.mode audio_page;
             Page.body_language := Page.language audio_page |})).2
      = Route.RequestJson
        :: Route.ThreadsCreate
             [{| Route.role := Route.user;
                 Route.content :=
                   Route.user_content Route.Swedish_instruction
                     (lit "Alice: let us ship Friday.") |}]
        :: rest.
Proof.
  destruct (sent_request_is_valid good_world audio_page _ _
              eq_refl eq_refl eq_refl (RouteProofs.run_pair _ _))
    as (resp & rest & Hout & Hst & Hlog).
  exists resp, rest. split_and!; [exact Hout|exact Hst|exact Hlog].
Defined.


End EndToEnd.
